(** * FP8 GEMM binding: csrc/quantization/fp8/amd/gemm_kernel.cu

    A shallow embedding of [get_hipblaslt_workspace_size], [create_workspace]
    and [fp8_mm].  The file is glue around hipBLASLt: what it computes is the
    sequence of vendor calls it makes and the arguments it hands over.  The
    embedding therefore runs the code in a small monad over the file's two
    static variables and a trace of the calls made; the vendor library is an
    oracle that answers each call.  The two checking macros of the file
    expand their argument three times; the embedding evaluates it as often
    as the expansion does. *)

From Stdlib Require Import ZArith String Ascii List Bool Lia.
From stdpp Require Import base option list strings gmap.
Import ListNotations.

Local Open Scope string_scope.
Local Open Scope Z_scope.

(** ** Machine integers *)

Module Int.

(** [int64_t]: two's-complement wrap-around, as the hardware computes it. *)
Definition int64 (z : Z) : Z := (z + 2 ^ 63) mod 2 ^ 64 - 2 ^ 63.
(** [int]: the 32-bit index type of the vendor interface. *)
Definition int32 (z : Z) : Z := (z + 2 ^ 31) mod 2 ^ 32 - 2 ^ 31.
(** [size_t]: unsigned 64-bit. *)
Definition size_t (z : Z) : Z := z mod 2 ^ 64.

Definition fits64 (z : Z) : Prop := - 2 ^ 63 <= z < 2 ^ 63.
Definition fits32 (z : Z) : Prop := - 2 ^ 31 <= z < 2 ^ 31.
Definition fits32b (z : Z) : bool := (- 2 ^ 31 <=? z) && (z <? 2 ^ 31).

Definition add64 (x y : Z) : Z := int64 (x + y).
Definition sub64 (x y : Z) : Z := int64 (x - y).
Definition mul64 (x y : Z) : Z := int64 (x * y).

End Int.

(** ** [std::stoi] on the value of the environment variable

  Base 10, as [strtol] reads it: leading white space is skipped, one
  optional sign, then the longest run of decimal digits; whatever follows
  is ignored.  No digit gives [std::invalid_argument]; a value outside
  [int] gives [std::out_of_range]. *)

Module Stoi.

Inductive result : Type :=
| Ok (v : Z)
| invalid_argument
| out_of_range.

Definition isspace (c : ascii) : bool :=
  let n := Z.of_nat (nat_of_ascii c) in
  (n =? 32) || ((9 <=? n) && (n <=? 13)).

Definition digit (c : ascii) : option Z :=
  let n := Z.of_nat (nat_of_ascii c) in
  if (48 <=? n) && (n <=? 57) then Some (n - 48) else None.

Fixpoint skip_space (s : string) : string :=
  match s with
  | String c r => if isspace c then skip_space r else s
  | EmptyString => s
  end.

(** The value of the leading digits of [s], continuing from [acc]. *)
Fixpoint digits (s : string) (acc : Z) : Z :=
  match s with
  | String c r =>
      match digit c with
      | Some d => digits r (10 * acc + d)
      | None => acc
      end
  | EmptyString => acc
  end.

Definition starts_with_digit (s : string) : bool :=
  match s with
  | String c _ => match digit c with Some _ => true | None => false end
  | EmptyString => false
  end.

Definition sign (s : string) : bool * string :=
  match s with
  | String c r =>
      if Ascii.eqb c "-"%char then (true, r)
      else if Ascii.eqb c "+"%char then (false, r)
      else (false, s)
  | EmptyString => (false, s)
  end.

Definition stoi (s : string) : result :=
  let '(neg, body) := sign (skip_space s) in
  if starts_with_digit body then
    let v := digits body 0 in
    let v := if neg then - v else v in
    if Int.fits32b v then Ok v else out_of_range
  else invalid_argument.

End Stoi.

(** ** Tensors, as far as the binding looks at them *)

Module Torch.

Inductive ScalarType : Type :=
| kFloat8_e4m3fnuz
| kFloat8_e4m3fn
| kFloat8_e5m2fnuz
| kFloat16
| kBFloat16
| kFloat
| kInt8.

#[global] Instance ScalarType_eq_dec : EqDecision ScalarType.
Proof. solve_decision. Defined.

(** Addresses, of device memory and of C strings; [nullptr] is 0. *)
Definition ptr : Type := Z.
Definition nullptr : ptr := 0.

(** [sizes()] and [strides()] are the [IntArrayRef]s of the tensor,
    [data_ptr()] the address of its storage and [storage] the bytes there. *)
Record Tensor : Type := mkTensor {
  dtype : ScalarType;
  sizes : list Z;
  strides : list Z;
  data_ptr : ptr;
  storage : list Z
}.

Definition dim (x : Tensor) : Z := Z.of_nat (length (sizes x)).

(** What every tensor satisfies: one stride per dimension, and extents
    that are non-negative [int64_t] values. *)
Definition wf (x : Tensor) : Prop :=
  length (strides x) = length (sizes x) /\
  Forall (fun s => 0 <= s < 2 ^ 63) (sizes x).

Definition wfb (x : Tensor) : bool :=
  bool_decide (length (strides x) = length (sizes x)) &&
  forallb (fun s => (0 <=? s) && (s <? 2 ^ 63)) (sizes x).

End Torch.
Export Torch.

(** ** The hipBLASLt extension interface, as the binding uses it *)

Module Hipblaslt.

Definition hipError_t : Type := Z.
Definition hipSuccess : hipError_t := 0.
Definition hipblasStatus_t : Type := Z.
Definition HIPBLAS_STATUS_SUCCESS : hipblasStatus_t := 0.

Inductive hipblasOperation_t : Type := HIPBLAS_OP_N | HIPBLAS_OP_T.
Inductive hipDataType : Type := HIP_R_8F_E4M3_FNUZ | HIP_R_16BF | HIP_R_16F.
Inductive hipblasComputeType_t : Type := HIPBLAS_COMPUTE_32F.
Inductive hipblasLtEpilogue_t : Type := HIPBLASLT_EPILOGUE_DEFAULT.

#[global] Instance hipblasOperation_eq_dec : EqDecision hipblasOperation_t.
Proof. solve_decision. Defined.

(** The two [float] constants of the call, 1.0f and 0.0f. *)
Inductive float_lit : Type := f_1_0 | f_0_0.

(** [hipblasLtMatmulAlgo_t] is opaque to the binding. *)
Definition hipblasLtMatmulAlgo_t : Type := Z.

Record hipblasLtMatmulHeuristicResult_t : Type := mkHeuristic {
  algo : hipblasLtMatmulAlgo_t;
  workspaceSize : Z;
  state : hipblasStatus_t
}.

Record GemmProblemType : Type := mkProblemType {
  op_a : hipblasOperation_t;
  op_b : hipblasOperation_t;
  type_a : hipDataType;
  type_b : hipDataType;
  type_c : hipDataType;
  type_d : hipDataType;
  type_compute : hipblasComputeType_t
}.

Record GemmInputs : Type := mkInputs {
  in_a : ptr;
  in_b : ptr;
  in_c : ptr;
  in_d : ptr;
  in_alpha : float_lit;
  in_beta : float_lit;
  in_scaleA : ptr;
  in_scaleB : ptr;
  in_scaleD : ptr
}.

(** The arguments of [Gemm::setProblem], in the order of the call. *)
Record Problem : Type := mkProblem {
  p_m : Z;
  p_n : Z;
  p_k : Z;
  p_batch_count : Z;
  p_lda : Z;
  p_ldb : Z;
  p_ldc : Z;
  p_ldd : Z;
  p_strideA : Z;
  p_strideB : Z;
  p_strideC : Z;
  p_strideD : Z;
  p_epilogue : hipblasLtEpilogue_t;
  p_inputs : GemmInputs;
  p_problemtype : GemmProblemType
}.

Definition handle_t : Type := Z.
Definition stream_t : Type := Z.

(** One entry per call that leaves the binding. *)
Inductive Call : Type :=
| hipMalloc (size : Z)
| setMaxWorkspaceBytes (bytes : Z)
| Gemm (handle : handle_t) (problem : GemmProblemType)
| getProblemTypes
| setProblem (args : Problem)
| algoGetHeuristic (requestedAlgoCount : Z) (maxWorkspaceBytes : Z)
| getIndexFromAlgo (a : hipblasLtMatmulAlgo_t)
| getAlgosFromIndex (handle : handle_t) (algoIndex : list Z)
| initialize (a : hipblasLtMatmulAlgo_t) (workspace : ptr)
| run (stream : stream_t)
| TORCH_WARN (text : string) (default_kib : Z).

(** The library's answers during one invocation.  As long as every check
    passes, each call expression of the file is evaluated once in an
    invocation, so an answer per argument describes the first evaluation of
    each in every possible run.  When a check fails, [CHECK_HIP_ERROR] and
    [CHECK_HIPBLASLT_ERROR] evaluate their argument twice more; what the
    library answers then is [v_again], by the number of the evaluation, and
    it need not be what it answered first.

    [hipMalloc(&workspace, size)] answers a status and what it leaves in
    [workspace] when it returns. *)
Record Vendor : Type := mkVendor {
  v_hipMalloc : Z -> hipError_t * ptr;
  v_setProblem : Problem -> hipblasStatus_t;
  v_algoGetHeuristic :
    Z -> Z -> hipblasStatus_t * list hipblasLtMatmulHeuristicResult_t;
  v_getIndexFromAlgo : hipblasLtMatmulAlgo_t -> Z;
  v_getAlgosFromIndex :
    handle_t -> list Z ->
    hipblasStatus_t * list hipblasLtMatmulHeuristicResult_t;
  v_initialize : hipblasLtMatmulAlgo_t -> ptr -> hipblasStatus_t;
  v_run : stream_t -> hipblasStatus_t;
  (** the status of a further evaluation of a call and, for [hipMalloc],
      what it leaves in [workspace] *)
  v_again : nat -> Call -> Z * ptr;
  (** [at::cuda::getCurrentCUDABlasLtHandle()] and
      [at::cuda::getCurrentCUDAStream()] *)
  v_handle : handle_t;
  v_stream : stream_t;
  (** [at::cuda::blas::_cublasGetErrorEnum], the name of a status in the
      message of [TORCH_CUDABLAS_CHECK] *)
  v_cublasGetErrorEnum : hipblasStatus_t -> string
}.

End Hipblaslt.
Export Hipblaslt.

(** ** Running the code: outcomes, the static variables, the call trace *)

Inductive Macro : Type := CHECK_HIP_ERROR | CHECK_HIPBLASLT_ERROR.

(** Undefined behaviour: the read of a local that was never assigned, or
    of an element past the end of a vector.  The language leaves open what
    follows such a read, and so does the embedding: a run is followed up to
    the read and ends there, as [Stopped (undefined _)].  What a build goes
    on to do is not described. *)
Inductive UB : Type :=
| uninitialized_read (variable : string)
| out_of_bounds (container : string) (index : nat).

(** How an invocation ends when it does not return. *)
Inductive Stop : Type :=
| c10_Error (msg : string)
  (** the exception of a failed [TORCH_CHECK] / [TORCH_CUDABLAS_CHECK] *)
| exit_failure (by_macro : Macro) (status : Z)
  (** the status that failed the comparison of the macro; a line on stderr,
      then [exit(EXIT_FAILURE)] *)
| assert_fail (msg : string)
  (** a failed [assert], when assertions are compiled in *)
| undefined (ub : UB).

Inductive Outcome (A : Type) : Type :=
| Done (a : A)
| Stopped (s : Stop).
Arguments Done {A} a.
Arguments Stopped {A} s.

(** The environment of the process: the address at which the value of
    each variable is kept, and the NUL-terminated text found at an address.
    Both belong to the C library, which may move a value or overwrite its
    text when the environment is changed.  No value is kept at [nullptr]:
    a variable listed there reads as one that is not set. *)
Record Environment : Type := mkEnvironment {
  variables : gmap string ptr;
  text_at : ptr -> string
}.

(** [getenv(name)]: the address of the value, [nullptr] for a variable that
    is not set. *)
Definition getenv (e : Environment) (name : string) : ptr :=
  match variables e !! name with
  | Some p => p
  | None => nullptr
  end.

(** The process as the file sees it: the environment, the function-local
    static [env] of [get_hipblaslt_workspace_size] (not yet initialised
    before the first call) and the file's two static variables. *)
Record World : Type := mkWorld {
  environ : Environment;
  env : option ptr;
  workspace : ptr;
  workspace_size : Z
}.

(** Static storage is zero-initialised. *)
Definition start (e : Environment) : World :=
  {| environ := e; env := None; workspace := nullptr; workspace_size := 0 |}.

(** What running a piece of the code gives: how it ended, the statics it
    left, and the calls it made, oldest first. *)
Record Run (A : Type) : Type := mkRun {
  outcome : Outcome A;
  world : World;
  made : list Call
}.
Arguments mkRun {A} _ _ _.
Arguments outcome {A} _.
Arguments world {A} _.
Arguments made {A} _.

Definition M (A : Type) : Type := World -> Run A.

Definition ret {A : Type} (a : A) : M A := fun w => mkRun (Done a) w [].

(** The calls [l] made before the run [r]. *)
Definition after {A : Type} (l : list Call) (r : Run A) : Run A :=
  match r with
  | mkRun o w l' => mkRun o w (l ++ l')
  end.

Definition bind {A B : Type} (c : M A) (k : A -> M B) : M B := fun w =>
  match c w with
  | mkRun (Done a) w' l => after l (k a w')
  | mkRun (Stopped s) w' l => mkRun (Stopped s) w' l
  end.

Notation "'do' x <- c ; k" := (bind c (fun x => k))
  (at level 10, x name, c at level 100, k at level 200,
   format "'[v' 'do'  x  <-  c ; '/' k ']'").
Notation "'exec' c ; k" := (bind c (fun _ : unit => k))
  (at level 10, c at level 100, k at level 200,
   format "'[v' 'exec'  c ; '/' k ']'").

Definition stop {A : Type} (s : Stop) : M A := fun w => mkRun (Stopped s) w [].

Definition call (c : Call) : M unit := fun w => mkRun (Done tt) w [c].

Definition get_workspace : M ptr := fun w => mkRun (Done (workspace w)) w [].
Definition get_workspace_size : M Z :=
  fun w => mkRun (Done (workspace_size w)) w [].

Definition set_workspace (p : ptr) : M unit := fun w =>
  mkRun (Done tt)
    {| environ := environ w; env := env w; workspace := p;
       workspace_size := workspace_size w |} [].

Definition set_workspace_size (n : Z) : M unit := fun w =>
  mkRun (Done tt)
    {| environ := environ w; env := env w; workspace := workspace w;
       workspace_size := n |} [].

(** [static const char* env = getenv(name);]: [getenv] is called the first
    time control passes the declaration, and the pointer it returns is kept;
    later calls find the pointer, not the variable. *)
Definition static_getenv (name : string) : M ptr := fun w =>
  match env w with
  | Some p => mkRun (Done p) w []
  | None =>
      let p := getenv (environ w) name in
      mkRun (Done p)
        {| environ := environ w; env := Some p; workspace := workspace w;
           workspace_size := workspace_size w |} []
  end.

(** Reading the C string at [p], as [std::stoi(env)] does when it builds
    its [std::string] argument: the text found there at the time of the
    call. *)
Definition c_str (p : ptr) : M string := fun w =>
  mkRun (Done (text_at (environ w) p)) w [].

(** [TORCH_CHECK(cond, msg)] throws [c10::Error] when [cond] is false. *)
Definition TORCH_CHECK (cond : bool) (msg : string) : M unit :=
  if cond then ret tt else stop (c10_Error msg).

(** [CHECK_HIP_ERROR(error)], lines 19-26.  A macro: [error] stands for
    the expression written at the place of use, here always a call, and
    the expansion contains it three times.  It is evaluated once for the
    comparison; when the comparison finds a failure it is evaluated twice
    more, as arguments of [fprintf] (in either order: the two are the same
    expression), and then the process exits.  [error n] is one evaluation
    of the expression: number 0 is the first, 1 and 2 are the further
    ones. *)
Definition check_hip_error (error : nat -> M hipError_t) : M unit :=
  do status <- error 0%nat;
  if status =? hipSuccess then ret tt
  else
    do shown <- error 1%nat;
    do printed <- error 2%nat;
    stop (exit_failure CHECK_HIP_ERROR status).

(** [CHECK_HIPBLASLT_ERROR(error)], lines 28-35: the same expansion. *)
Definition check_hipblaslt_error (error : nat -> M hipblasStatus_t) : M unit :=
  do status <- error 0%nat;
  if status =? HIPBLAS_STATUS_SUCCESS then ret tt
  else
    do shown <- error 1%nat;
    do printed <- error 2%nat;
    stop (exit_failure CHECK_HIPBLASLT_ERROR status).

(** [v[i]] on an [ArrayRef] or a [std::vector]: no bounds check, so an
    index past the end is undefined behaviour. *)
Definition index {A : Type} (container : string) (v : list A) (i : nat)
  : M A :=
  match v !! i with
  | Some x => ret x
  | None => stop (undefined (out_of_bounds container i))
  end.

(** [c1 && c2], the right operand evaluated only when the left holds. *)
Definition and_then (c1 c2 : M bool) : M bool :=
  do b <- c1; if b then c2 else ret false.

(** ** The program *)

Section Program.

(** The vendor library behind the calls, and whether the translation unit
    is compiled with [NDEBUG] (assertions removed). *)
Variable V : Vendor.
Variable NDEBUG : bool.

(** [assert(false && msg)]. *)
Definition assert_false (msg : string) : M unit :=
  if NDEBUG then ret tt else stop (assert_fail msg).

(** Reading a local [bool] that may never have been assigned: undefined
    behaviour when it was not. *)
Definition read (variable : string) (x : option bool) : M bool :=
  match x with
  | Some b => ret b
  | None => stop (undefined (uninitialized_read variable))
  end.

(** The answer to evaluation number [n] of the call [c]: [first] for
    number 0, the library's [v_again] for a further one. *)
Definition answer (n : nat) (c : Call) (first : Z * ptr) : Z * ptr :=
  match n with
  | O => first
  | S _ => v_again V n c
  end.

(** Evaluation number [n] of a call whose value is its status: the call is
    made, and the library answers. *)
Definition evaluate (c : Call) (first : Z) (n : nat) : M Z :=
  exec call c;
  ret (fst (answer n c (first, nullptr))).

(** [TORCH_CUDABLAS_CHECK(EXPR)], of ATen/cuda/Exceptions.h: the status of
    [EXPR] is stored in a local, so [EXPR] is evaluated once; unless it is
    success a [c10::Error] is thrown, whose message names the status and
    quotes the expression. *)
Definition TORCH_CUDABLAS_CHECK (EXPR : M hipblasStatus_t) (text : string)
  : M unit :=
  do err <- EXPR;
  TORCH_CHECK (err =? HIPBLAS_STATUS_SUCCESS)
    ("CUDA error: " +:+ v_cublasGetErrorEnum V err +:+
     " when calling `" +:+ text +:+ "`").

Definition get_hipblaslt_workspace_size : M Z :=
  do env <- static_getenv "HIPBLASLT_WORKSPACE_SIZE";
  let workspace_size := 32 * 1024 in
  do workspace_size <-
    (if env =? nullptr then ret workspace_size
     else
       do text <- c_str env;
       match Stoi.stoi text with
       | Stoi.Ok v => ret (Int.size_t v)
       | Stoi.invalid_argument =>
           exec call (TORCH_WARN
             "invalid HIPBLASLT_WORKSPACE_SIZE, using default workspace size of "
             workspace_size);
           ret workspace_size
       | Stoi.out_of_range =>
           exec call (TORCH_WARN
             "HIPBLASLT_WORKSPACE_SIZE out of range, using default workspace size of "
             workspace_size);
           ret workspace_size
       end);
  ret (Int.size_t (workspace_size * 1024)).

(** Evaluation number [n] of [hipMalloc(&workspace, workspace_size)]: the
    size is read from the static, the call is made, and the static pointer
    holds what the library leaves there. *)
Definition hipMalloc_workspace (n : nat) : M hipError_t :=
  do size <- get_workspace_size;
  exec call (hipMalloc size);
  let '(error, p) := answer n (hipMalloc size) (v_hipMalloc V size) in
  exec set_workspace p;
  ret error.

Definition create_workspace : M unit :=
  do size <- get_hipblaslt_workspace_size;
  exec set_workspace_size size;
  do size <- get_workspace_size;
  if 0 <? size then check_hip_error hipMalloc_workspace
  else ret tt.

(** Lines 101-110 for [b] and 111-120 for [a]: the same three-way test.
    [None] is the flag left unassigned by the last branch. *)
Definition infer_transpose (name : string) (x_strides x_sizes : list Z)
  : M (option bool) :=
  let st := name +:+ "_strides" in
  let sz := name +:+ "_sizes" in
  do col <- and_then
    (do s0 <- index st x_strides 0; ret (s0 =? 1))
    (do s1 <- index st x_strides 1;
     do z0 <- index sz x_sizes 0;
     ret (Z.max 1 z0 <=? s1));
  if col then ret (Some false)
  else
    do row <- and_then
      (do s1 <- index st x_strides 1; ret (s1 =? 1))
      (do s0 <- index st x_strides 0;
       do z1 <- index sz x_sizes 1;
       ret (Z.max 1 z1 <=? s0));
    if row then ret (Some true)
    else
      exec assert_false
        "unusual strides detected, may need to clone a contiguous tensor";
      ret None.

Definition op_of (transpose : bool) : hipblasOperation_t :=
  if transpose then HIPBLAS_OP_T else HIPBLAS_OP_N.

Definition fp8_mm (a b result scale_a scale_b : Tensor)
    (scale_result : option Tensor) (algo_idx padding_size : Z) : M unit :=
  let a_strides := strides a in
  let b_strides := strides b in
  let a_sizes := sizes a in
  let b_sizes := sizes b in
  exec TORCH_CHECK
    (bool_decide (dtype a = kFloat8_e4m3fnuz) &&
     bool_decide (dtype b = kFloat8_e4m3fnuz))
    "The input tensors type should be float8_e4m3fnuz.";
  exec TORCH_CHECK ((dim a =? 2) && (dim b =? 2)) "Input tensors must be 2-D.";
  do a1 <- index "a_sizes" a_sizes 1;
  do b0 <- index "b_sizes" b_sizes 0;
  exec TORCH_CHECK (a1 =? Int.sub64 b0 padding_size)
    "a dim 1 must match b dim 0.";
  let out_dtype := dtype result in
  exec TORCH_CHECK
    (bool_decide (out_dtype = kFloat8_e4m3fnuz) ||
     bool_decide (out_dtype = kFloat16) ||
     bool_decide (out_dtype = kBFloat16))
    "Only float16, bfloat16 or float8_e4m3fnuz are supported as the output dtype.";
  let hipblas_out_type :=
    if bool_decide (out_dtype = kFloat8_e4m3fnuz) then HIP_R_8F_E4M3_FNUZ
    else if bool_decide (out_dtype = kBFloat16) then HIP_R_16BF
    else HIP_R_16F in
  (* transpose_result = true *)
  do transpose_b <- infer_transpose "b" b_strides b_sizes;
  do transpose_a <- infer_transpose "a" a_strides a_sizes;
  (* if (transpose_result): the flags and the extents change places *)
  do tmp <- read "transpose_a" transpose_a;
  do old_b <- read "transpose_b" transpose_b;
  let transpose_a := negb old_b in
  let transpose_b := negb tmp in
  let a_sizes := sizes b in
  let b_sizes := sizes a in
  let alpha := f_1_0 in
  let beta := f_0_0 in
  do m <- index "a_sizes" a_sizes 1;
  do a0 <- index "a_sizes" a_sizes 0;
  let k := Int.sub64 a0 padding_size in
  do n <- index "b_sizes" b_sizes 0;
  let d_a := data_ptr b in
  let d_b := data_ptr a in
  let d_d := data_ptr result in
  let d_scale_a := data_ptr scale_a in
  let d_scale_b := data_ptr scale_b in
  let d_scale_d :=
    match scale_result with
    | Some t => data_ptr t
    | None => nullptr
    end in
  let handle := v_handle V in
  let stream := v_stream V in
  do max_workspace_bytes <- get_workspace_size;
  exec call (setMaxWorkspaceBytes max_workspace_bytes);
  let problem :=
    {| op_a := op_of transpose_a; op_b := op_of transpose_b;
       type_a := HIP_R_8F_E4M3_FNUZ; type_b := HIP_R_8F_E4M3_FNUZ;
       type_c := hipblas_out_type; type_d := hipblas_out_type;
       type_compute := HIPBLAS_COMPUTE_32F |} in
  (* the object [gemm], as far as the binding looks at it: the problem
     type it was constructed with *)
  let gemm := problem in
  exec call (Gemm handle gemm);
  let epilogue := HIPBLASLT_EPILOGUE_DEFAULT in
  let inputs :=
    {| in_a := d_a; in_b := d_b; in_c := d_d; in_d := d_d;
       in_alpha := alpha; in_beta := beta;
       in_scaleA := d_scale_a; in_scaleB := d_scale_b;
       in_scaleD := d_scale_d |} in
  (* auto&& problem = gemm.getProblemTypes(); the object answers with the
     problem type it holds *)
  exec call getProblemTypes;
  let problem := gemm in
  let lda :=
    if bool_decide (op_a problem = HIPBLAS_OP_N) then m
    else Int.add64 k padding_size in
  let ldb := if bool_decide (op_b problem = HIPBLAS_OP_N) then k else n in
  let ldc := m in
  let strideA := Int.mul64 m (Int.add64 k padding_size) in
  let strideB := Int.mul64 n k in
  let strideC := Int.mul64 m n in
  let args :=
    {| p_m := m; p_n := n; p_k := k; p_batch_count := 1;
       p_lda := lda; p_ldb := ldb; p_ldc := ldc; p_ldd := ldc;
       p_strideA := strideA; p_strideB := strideB;
       p_strideC := strideC; p_strideD := strideC;
       p_epilogue := epilogue; p_inputs := inputs;
       p_problemtype := problem |} in
  exec check_hipblaslt_error
    (evaluate (setProblem args) (v_setProblem V args));
  do algo_idx <-
    (if algo_idx =? 0 then
       let request_solutions := 1 in
       (* heuristicResult.reserve(1) allocates and leaves the vector empty;
          the first evaluation of the query fills it *)
       let '(status, heuristicResult) :=
         v_algoGetHeuristic V request_solutions max_workspace_bytes in
       exec check_hipblaslt_error
         (evaluate (algoGetHeuristic request_solutions max_workspace_bytes)
            status);
       (* static size_t solSize = 0; is never used *)
       do first <- index "heuristicResult" heuristicResult 0;
       exec call (getIndexFromAlgo (algo first));
       let algo_idx := v_getIndexFromAlgo V (algo first) in
       exec TORCH_CHECK (negb (bool_decide (heuristicResult = [])))
         "No valid solution found!";
       ret algo_idx
     else ret algo_idx);
  (* std::vector<int> algoIndex(1); algoIndex[0] = algo_idx; *)
  let algoIndex := [Int.int32 algo_idx] in
  let '(status, tmpAlgo) := v_getAlgosFromIndex V handle algoIndex in
  exec TORCH_CUDABLAS_CHECK
    (evaluate (getAlgosFromIndex handle algoIndex) status 0)
    "hipblaslt_ext::getAlgosFromIndex(handle, algoIndex, tmpAlgo)";
  do chosen <- index "tmpAlgo" tmpAlgo 0;
  do workspace <- get_workspace;
  exec check_hipblaslt_error
    (evaluate (initialize (algo chosen) workspace)
       (v_initialize V (algo chosen) workspace));
  check_hipblaslt_error (evaluate (run stream) (v_run V stream)).

End Program.

(** ** Stating properties of runs *)

(** A property of how a run ends, of the statics it leaves and of the calls
    it made; [wp c Q w] says the run of [c] from [w] has it. *)
Definition post (A : Type) : Type := Outcome A -> World -> list Call -> Prop.

Definition wp {A : Type} (c : M A) (Q : post A) (w : World) : Prop :=
  Q (outcome (c w)) (world (c w)) (made (c w)).

(** The condition the four [TORCH_CHECK]s of [fp8_mm] are there to enforce,
    in the words of the interface: both operands FP8, both 2-D, the inner
    extents agreeing up to the padding, and a supported output type. *)
Definition precondition (a b result : Tensor) (padding_size : Z) : Prop :=
  (dtype a = kFloat8_e4m3fnuz /\ dtype b = kFloat8_e4m3fnuz) /\
  (dim a = 2 /\ dim b = 2) /\
  sizes a !! 1%nat = (fun b0 => b0 - padding_size) <$> sizes b !! 0%nat /\
  (dtype result = kFloat8_e4m3fnuz \/ dtype result = kFloat16 \/
   dtype result = kBFloat16).

(** The two stride patterns of a 2-D operand.  Column-major: unit stride
    along dimension 0 and a stride of at least [max(1, sizes[0])] along
    dimension 1.  Row-major: the same with the dimensions exchanged. *)
Definition column_major (x : Tensor) : Prop :=
  match strides x, sizes x with
  | [s0; s1], [z0; _] => s0 = 1 /\ Z.max 1 z0 <= s1
  | _, _ => False
  end.

Definition row_major (x : Tensor) : Prop :=
  match strides x, sizes x with
  | [s0; s1], [_; z1] => s1 = 1 /\ Z.max 1 z1 <= s0
  | _, _ => False
  end.

(** The name of the entry point a call goes to. *)
Definition entry (c : Call) : string :=
  match c with
  | hipMalloc _ => "hipMalloc"
  | setMaxWorkspaceBytes _ => "GemmPreference::setMaxWorkspaceBytes"
  | Gemm _ _ => "Gemm::Gemm"
  | getProblemTypes => "Gemm::getProblemTypes"
  | setProblem _ => "Gemm::setProblem"
  | algoGetHeuristic _ _ => "Gemm::algoGetHeuristic"
  | getIndexFromAlgo _ => "getIndexFromAlgo"
  | getAlgosFromIndex _ _ => "getAlgosFromIndex"
  | initialize _ _ => "Gemm::initialize"
  | run _ => "Gemm::run"
  | TORCH_WARN _ _ => "TORCH_WARN"
  end.

(** The calls whose status goes through [CHECK_HIP_ERROR] or
    [CHECK_HIPBLASLT_ERROR], with the macro and the status the library
    answers to the first evaluation. *)
Definition checked (V : Vendor) (c : Call) : option (Macro * Z) :=
  match c with
  | hipMalloc size => Some (CHECK_HIP_ERROR, fst (v_hipMalloc V size))
  | setProblem args => Some (CHECK_HIPBLASLT_ERROR, v_setProblem V args)
  | algoGetHeuristic n bytes =>
      Some (CHECK_HIPBLASLT_ERROR, fst (v_algoGetHeuristic V n bytes))
  | initialize a p => Some (CHECK_HIPBLASLT_ERROR, v_initialize V a p)
  | run s => Some (CHECK_HIPBLASLT_ERROR, v_run V s)
  | _ => None
  end.

(** The status each macro compares with. *)
Definition success (m : Macro) : Z :=
  match m with
  | CHECK_HIP_ERROR => hipSuccess
  | CHECK_HIPBLASLT_ERROR => HIPBLAS_STATUS_SUCCESS
  end.

(** What [get_hipblaslt_workspace_size] returns, by what it reads as the
    value of the variable (lines 47-59): [workspace_size * 1024] in
    [size_t], from the integer read or from the default. *)
Definition size_read (seen : option string) : Z :=
  match seen with
  | Some text =>
      match Stoi.stoi text with
      | Stoi.Ok v => (1024 * v) mod 2 ^ 64
      | _ => 32 * 1024 * 1024
      end
  | None => 32 * 1024 * 1024
  end.

(** The warning [get_hipblaslt_workspace_size] gives, by what it reads as
    the value of the variable (lines 51-57): none for an integer or an
    unset variable, one for a value [std::stoi] rejects. *)
Definition warned (seen : option string) : list Call :=
  match seen with
  | Some text =>
      match Stoi.stoi text with
      | Stoi.Ok _ => []
      | Stoi.invalid_argument =>
          [TORCH_WARN
             "invalid HIPBLASLT_WORKSPACE_SIZE, using default workspace size of "
             (32 * 1024)]
      | Stoi.out_of_range =>
          [TORCH_WARN
             "HIPBLASLT_WORKSPACE_SIZE out of range, using default workspace size of "
             (32 * 1024)]
      end
  | None => []
  end.

Definition is_run (c : Call) : bool :=
  match c with
  | run _ => true
  | _ => false
  end.

Definition is_hipMalloc (c : Call) : bool :=
  match c with
  | hipMalloc _ => true
  | _ => false
  end.

(** The static [env] once the declaration in
    [get_hipblaslt_workspace_size] has been passed. *)
Definition env_pointer (w : World) : ptr :=
  match env w with
  | Some p => p
  | None => getenv (environ w) "HIPBLASLT_WORKSPACE_SIZE"
  end.

(** What the next call of [get_hipblaslt_workspace_size] from [w] reads as
    the value of the variable: nothing when [env] is null, otherwise the
    text found at [env]. *)
Definition env_seen (w : World) : option string :=
  if env_pointer w =? nullptr then None
  else Some (text_at (environ w) (env_pointer w)).

(** The arguments of one invocation of [fp8_mm], with the library as it
    answers during that invocation. *)
Record Invocation : Type := mkInvocation {
  i_vendor : Vendor;
  i_a : Tensor;
  i_b : Tensor;
  i_result : Tensor;
  i_scale_a : Tensor;
  i_scale_b : Tensor;
  i_scale_result : option Tensor;
  i_algo_idx : Z;
  i_padding_size : Z
}.

Definition invoke (NDEBUG : bool) (i : Invocation) : M unit :=
  fp8_mm (i_vendor i) NDEBUG (i_a i) (i_b i) (i_result i) (i_scale_a i)
    (i_scale_b i) (i_scale_result i) (i_algo_idx i) (i_padding_size i).

(** The same tensor over other storage contents. *)
Definition with_storage (x : Tensor) (bytes : list Z) : Tensor :=
  {| dtype := dtype x; sizes := sizes x; strides := strides x;
     data_ptr := data_ptr x; storage := bytes |}.

(** *** Concrete inputs used in the examples below *)

Module Sample.

(** A library that accepts everything; the heuristic proposes algorithm 77,
    whose index is 78. *)
Definition vendor : Vendor :=
  {| v_hipMalloc := fun _ => (hipSuccess, 4096);
     v_setProblem := fun _ => HIPBLAS_STATUS_SUCCESS;
     v_algoGetHeuristic := fun _ _ =>
       (HIPBLAS_STATUS_SUCCESS, [mkHeuristic 77 0 0]);
     v_getIndexFromAlgo := fun a => a + 1;
     v_getAlgosFromIndex := fun _ idx =>
       (HIPBLAS_STATUS_SUCCESS, map (fun i => mkHeuristic (i * 10) 0 0) idx);
     v_initialize := fun _ _ => HIPBLAS_STATUS_SUCCESS;
     v_run := fun _ => HIPBLAS_STATUS_SUCCESS;
     v_again := fun _ _ => (0, 4096);
     v_handle := 11;
     v_stream := 22;
     v_cublasGetErrorEnum := fun _ => "<unknown>" |}.

(** The same library with no heuristic solution to offer. *)
Definition vendor_no_solution : Vendor :=
  {| v_hipMalloc := v_hipMalloc vendor;
     v_setProblem := v_setProblem vendor;
     v_algoGetHeuristic := fun _ _ => (HIPBLAS_STATUS_SUCCESS, []);
     v_getIndexFromAlgo := v_getIndexFromAlgo vendor;
     v_getAlgosFromIndex := v_getAlgosFromIndex vendor;
     v_initialize := v_initialize vendor;
     v_run := v_run vendor;
     v_again := v_again vendor;
     v_handle := 11;
     v_stream := 22;
     v_cublasGetErrorEnum := v_cublasGetErrorEnum vendor |}.

(** The same library with [Gemm::run] failing with status 7 when it is
    first called, and succeeding when it is called again. *)
Definition vendor_run_fails : Vendor :=
  {| v_hipMalloc := v_hipMalloc vendor;
     v_setProblem := v_setProblem vendor;
     v_algoGetHeuristic := v_algoGetHeuristic vendor;
     v_getIndexFromAlgo := v_getIndexFromAlgo vendor;
     v_getAlgosFromIndex := v_getAlgosFromIndex vendor;
     v_initialize := v_initialize vendor;
     v_run := fun _ => 7;
     v_again := v_again vendor;
     v_handle := 11;
     v_stream := 22;
     v_cublasGetErrorEnum := v_cublasGetErrorEnum vendor |}.

(** The same library with [getAlgosFromIndex] failing with status 3. *)
Definition vendor_lookup_fails : Vendor :=
  {| v_hipMalloc := v_hipMalloc vendor;
     v_setProblem := v_setProblem vendor;
     v_algoGetHeuristic := v_algoGetHeuristic vendor;
     v_getIndexFromAlgo := v_getIndexFromAlgo vendor;
     v_getAlgosFromIndex := fun _ _ => (3, []);
     v_initialize := v_initialize vendor;
     v_run := v_run vendor;
     v_again := v_again vendor;
     v_handle := 11;
     v_stream := 22;
     v_cublasGetErrorEnum := v_cublasGetErrorEnum vendor |}.

(** The same library with [getAlgosFromIndex] succeeding with no algorithm. *)
Definition vendor_lookup_empty : Vendor :=
  {| v_hipMalloc := v_hipMalloc vendor;
     v_setProblem := v_setProblem vendor;
     v_algoGetHeuristic := v_algoGetHeuristic vendor;
     v_getIndexFromAlgo := v_getIndexFromAlgo vendor;
     v_getAlgosFromIndex := fun _ _ => (HIPBLAS_STATUS_SUCCESS, []);
     v_initialize := v_initialize vendor;
     v_run := v_run vendor;
     v_again := v_again vendor;
     v_handle := 11;
     v_stream := 22;
     v_cublasGetErrorEnum := v_cublasGetErrorEnum vendor |}.

(** The same library later on, when [hipMalloc] answers another address. *)
Definition vendor_later : Vendor :=
  {| v_hipMalloc := fun _ => (hipSuccess, 8192);
     v_setProblem := v_setProblem vendor;
     v_algoGetHeuristic := v_algoGetHeuristic vendor;
     v_getIndexFromAlgo := v_getIndexFromAlgo vendor;
     v_getAlgosFromIndex := v_getAlgosFromIndex vendor;
     v_initialize := v_initialize vendor;
     v_run := v_run vendor;
     v_again := v_again vendor;
     v_handle := 11;
     v_stream := 22;
     v_cublasGetErrorEnum := v_cublasGetErrorEnum vendor |}.

(** a: 2 x 3, row-major, at address 100. *)
Definition a : Tensor := mkTensor kFloat8_e4m3fnuz [2; 3] [3; 1] 100 [].
(** b: 3 x 4, column-major (the transpose of a contiguous 4 x 3), at 200. *)
Definition b : Tensor := mkTensor kFloat8_e4m3fnuz [3; 4] [1; 3] 200 [].
(** result: 2 x 4 half precision, at 300. *)
Definition result : Tensor := mkTensor kFloat16 [2; 4] [4; 1] 300 [].
(** The two input scales and the output scale, one float each. *)
Definition scale_a : Tensor := mkTensor kFloat [] [] 401 [].
Definition scale_b : Tensor := mkTensor kFloat [] [] 402 [].
Definition scale_result : Tensor := mkTensor kFloat [] [] 403 [].
(** A 1 x 1 operand: its strides are (1, 1). *)
Definition one_by_one : Tensor := mkTensor kFloat8_e4m3fnuz [1; 1] [1; 1] 100 [].
(** A 2 x 3 operand whose rows are two elements apart: neither layout. *)
Definition strided : Tensor := mkTensor kFloat8_e4m3fnuz [2; 3] [6; 2] 100 [].
(** An FP32 operand. *)
Definition a_float : Tensor := mkTensor kFloat [2; 3] [3; 1] 100 [].

(** An environment with HIPBLASLT_WORKSPACE_SIZE set to [value], kept at
    address 7000. *)
Definition setenv (value : string) : Environment :=
  {| variables := {[ "HIPBLASLT_WORKSPACE_SIZE" := 7000 ]};
     text_at := fun p => if p =? 7000 then value else "" |}.

(** The statics after [create_workspace] with 64 KiB requested. *)
Definition ready : World :=
  {| environ := setenv "64";
     env := Some 7000; workspace := 4096; workspace_size := 65536 |}.

End Sample.

(** *** Further vocabulary *)

(** The unused argument checks of lines 12-17, over what they ask of the
    tensor: [x.is_cuda()], [x.is_contiguous()], and the spelling [#x]. *)
Definition CHECK_CUDA (is_cuda : bool) (x : string) : M unit :=
  TORCH_CHECK is_cuda (x +:+ " must be a CUDA tensor").

Definition CHECK_CONTIGUOUS (is_contiguous : bool) (x : string) : M unit :=
  TORCH_CHECK is_contiguous (x +:+ " must be contiguous").

Definition CHECK_INPUT (is_cuda is_contiguous : bool) (x : string) : M unit :=
  exec CHECK_CUDA is_cuda x;
  CHECK_CONTIGUOUS is_contiguous x.

(** The entry points of one invocation of [fp8_mm], in program order. *)
Definition call_order (algo_idx : Z) : list string :=
  (["GemmPreference::setMaxWorkspaceBytes"; "Gemm::Gemm";
    "Gemm::getProblemTypes"; "Gemm::setProblem"]
   ++ (if algo_idx =? 0
       then ["Gemm::algoGetHeuristic"; "getIndexFromAlgo"]
       else [])
   ++ ["getAlgosFromIndex"; "Gemm::initialize"; "Gemm::run"])%list.

(** The same tensor seen through other strides. *)
Definition with_strides (x : Tensor) (st : list Z) : Tensor :=
  {| dtype := dtype x; sizes := sizes x; strides := st;
     data_ptr := data_ptr x; storage := storage x |}.

(** The same process after the environment was changed. *)
Definition with_environ (w : World) (e : Environment) : World :=
  {| environ := e; env := env w; workspace := workspace w;
     workspace_size := workspace_size w |}.

(** The messages of the four argument checks (lines 77-88). *)
Definition fp8_mm_messages : list string :=
  ["The input tensors type should be float8_e4m3fnuz.";
   "Input tensors must be 2-D.";
   "a dim 1 must match b dim 0.";
   "Only float16, bfloat16 or float8_e4m3fnuz are supported as the output dtype."].

(** The message of the status check on [getAlgosFromIndex] (lines 197-198)
    for a status. *)
Definition lookup_error (V : Vendor) (status : hipblasStatus_t) : string :=
  "CUDA error: " +:+ v_cublasGetErrorEnum V status +:+
  " when calling `hipblaslt_ext::getAlgosFromIndex(handle, algoIndex, tmpAlgo)`".

(** The same library with other answers to the further evaluations of a
    failed check. *)
Definition with_again (V : Vendor) (again : nat -> Call -> Z * ptr) : Vendor :=
  {| v_hipMalloc := v_hipMalloc V;
     v_setProblem := v_setProblem V;
     v_algoGetHeuristic := v_algoGetHeuristic V;
     v_getIndexFromAlgo := v_getIndexFromAlgo V;
     v_getAlgosFromIndex := v_getAlgosFromIndex V;
     v_initialize := v_initialize V;
     v_run := v_run V;
     v_again := again;
     v_handle := v_handle V;
     v_stream := v_stream V;
     v_cublasGetErrorEnum := v_cublasGetErrorEnum V |}.

Definition is_TORCH_WARN (c : Call) : bool :=
  match c with
  | TORCH_WARN _ _ => true
  | _ => false
  end.

(** Strings all of whose characters satisfy a test. *)
Fixpoint all_chars (p : ascii -> bool) (s : string) : bool :=
  match s with
  | EmptyString => true
  | String c r => p c && all_chars p r
  end.

Definition is_digit (c : ascii) : bool :=
  match Stoi.digit c with
  | Some _ => true
  | None => false
  end.

Fixpoint last_char (s : string) : option ascii :=
  match s with
  | EmptyString => None
  | String c EmptyString => Some c
  | String _ r => last_char r
  end.

(** * Properties *)

(** ** Reading the environment variable *)

Example stoi_plain : Stoi.stoi "76800" = Stoi.Ok 76800.
Proof. reflexivity. Qed.
Example stoi_suffix : Stoi.stoi "  64MB" = Stoi.Ok 64.
Proof. reflexivity. Qed.
Example stoi_negative : Stoi.stoi "-1" = Stoi.Ok (-1).
Proof. reflexivity. Qed.
Example stoi_letters : Stoi.stoi "auto" = Stoi.invalid_argument.
Proof. reflexivity. Qed.
Example stoi_huge : Stoi.stoi "4294967296" = Stoi.out_of_range.
Proof. reflexivity. Qed.

(** ** The sample call, run *)

Example sample_run :
  let r := fp8_mm Sample.vendor false Sample.a Sample.b Sample.result
             Sample.scale_a Sample.scale_b None 0 0 Sample.ready in
  outcome r = Done tt /\ world r = Sample.ready /\
  skipn 4 (made r)
  = [algoGetHeuristic 1 65536; getIndexFromAlgo 77;
     getAlgosFromIndex 11 [78]; initialize 780 4096; run 22].
Proof. vm_compute. auto. Qed.

(** ** Machine arithmetic *)

Lemma int64_fits z : Int.fits64 z -> Int.int64 z = z.
Proof.
  unfold Int.fits64, Int.int64. intros H.
  rewrite Z.mod_small; lia.
Qed.

Lemma int32_fits z : Int.fits32 z -> Int.int32 z = z.
Proof.
  unfold Int.fits32, Int.int32. intros H.
  rewrite Z.mod_small; lia.
Qed.

(** An overflowing difference of an extent and an [int64_t] wraps to a
    negative number, so it compares with an extent as the exact one does. *)
Lemma sub64_compare a1 b0 p :
  0 <= a1 < 2 ^ 63 -> 0 <= b0 < 2 ^ 63 -> Int.fits64 p ->
  (a1 =? Int.sub64 b0 p) = (a1 =? b0 - p).
Proof.
  unfold Int.fits64, Int.sub64, Int.int64. intros Ha Hb Hp.
  destruct (Z_lt_le_dec (b0 - p) (2 ^ 63)) as [Hlt|Hge].
  - rewrite Z.mod_small by lia. f_equal. lia.
  - assert (E : (b0 - p + 2 ^ 63) mod 2 ^ 64 = b0 - p - 2 ^ 63).
    { symmetry. apply (Z.mod_unique _ _ 1); lia. }
    rewrite E.
    destruct (Z.eqb_spec a1 (b0 - p - 2 ^ 63 - 2 ^ 63)),
             (Z.eqb_spec a1 (b0 - p)); try reflexivity; lia.
Qed.

Lemma wfb_wf x : wfb x = true -> wf x.
Proof.
  unfold wfb, wf. intros H. apply andb_prop in H as [H1 H2]. split.
  - by apply bool_decide_eq_true in H1.
  - apply Forall_forall. intros s Hs.
    rewrite forallb_forall in H2. apply list_elem_of_In in Hs.
    specialize (H2 s Hs). apply andb_prop in H2 as [? ?]. lia.
Qed.

(** ** Stepping through a run *)

Lemma wp_bind {A B : Type} (c : M A) (k : A -> M B) (Q : post B) w :
  wp c (fun o w1 l1 =>
          match o with
          | Done a => wp (k a) (fun o2 w2 l2 => Q o2 w2 (l1 ++ l2)%list) w1
          | Stopped s => Q (Stopped s) w1 l1
          end) w ->
  wp (bind c k) Q w.
Proof.
  unfold wp, bind. destruct (c w) as [[x|s] w1 l1]; cbn; [|done].
  destruct (k x w1) as [o2 w2 l2]; cbn. done.
Qed.

(** Two programs that run alike step by step run alike. *)
Lemma bind_cong {A B : Type} (c c' : M A) (k k' : A -> M B) w :
  c w = c' w ->
  (forall x w', k x w' = k' x w') ->
  bind c k w = bind c' k' w.
Proof.
  intros Hc Hk. unfold bind. rewrite Hc.
  destruct (c' w) as [[x|s] w1 l]; [|reflexivity]. by rewrite Hk.
Qed.

(** A piece of code that neither calls out nor touches the statics. *)
Lemma wp_pure {A : Type} (c : M A) (Q : post A) w :
  world (c w) = w -> made (c w) = [] ->
  (forall o, outcome (c w) = o -> Q o w []) ->
  wp c Q w.
Proof. unfold wp. intros -> -> H. by apply H. Qed.

Lemma run_eq {A : Type} (r : Run A) o w l :
  outcome r = o -> world r = w -> made r = l -> r = mkRun o w l.
Proof. destruct r; cbn; congruence. Qed.

Ltac wp_prim :=
  unfold wp at 1;
  cbn [outcome world made ret stop call get_workspace get_workspace_size
       set_workspace set_workspace_size c_str].

(** Steps that follow the code without a case distinction. *)
Ltac wp_det :=
  lazymatch goal with
  | |- wp (bind _ _) _ _ => apply wp_bind
  | |- wp (ret _) _ _ => wp_prim
  | |- wp (stop _) _ _ => wp_prim
  | |- wp (call _) _ _ => wp_prim
  | |- wp get_workspace _ _ => wp_prim
  | |- wp get_workspace_size _ _ => wp_prim
  | |- wp (set_workspace _) _ _ => wp_prim
  | |- wp (set_workspace_size _) _ _ => wp_prim
  | |- wp (c_str _) _ _ => wp_prim
  | |- wp (TORCH_CHECK _ _) _ _ => unfold TORCH_CHECK at 1
  | |- wp (TORCH_CUDABLAS_CHECK _ _ _) _ _ =>
      unfold TORCH_CUDABLAS_CHECK at 1
  | |- wp (check_hipblaslt_error _) _ _ => unfold check_hipblaslt_error at 1
  | |- wp (check_hip_error _) _ _ => unfold check_hip_error at 1
  | |- wp (evaluate _ _ _ _) _ _ => unfold evaluate at 1; cbn [answer fst]
  | |- wp (hipMalloc_workspace _ _) _ _ =>
      unfold hipMalloc_workspace at 1; cbn [answer]
  | |- wp (index _ _ _) _ _ => unfold index at 1; cbn [lookup list_lookup]
  | |- wp (read _ _) _ _ => unfold read at 1
  | |- wp (assert_false _ _) _ _ => unfold assert_false at 1
  | |- wp (and_then _ _) _ _ => unfold and_then at 1
  end.

(** A case distinction on what the code tests. *)
Ltac wp_branch :=
  lazymatch goal with
  | |- wp (if ?c then _ else _) _ _ => destruct c eqn:?
  | |- wp (match ?x with _ => _ end) _ _ => destruct x eqn:?
  end.

Ltac wp_step := first [wp_det | wp_branch].

Lemma wp_if_true {A : Type} (c : bool) (x y : M A) Q w :
  c = true -> wp x Q w -> wp (if c then x else y) Q w.
Proof. by intros ->. Qed.

Lemma wp_if_false {A : Type} (c : bool) (x y : M A) Q w :
  c = false -> wp y Q w -> wp (if c then x else y) Q w.
Proof. by intros ->. Qed.

(** A step that settles a test from the hypotheses when it can. *)
Ltac wp_known :=
  lazymatch goal with
  | |- wp (if _ then _ else _) _ _ =>
      first [ apply wp_if_true; [solve [assumption | reflexivity] |]
            | apply wp_if_false; [solve [assumption | reflexivity] |] ]
  end.

(** The comparisons of a status, as equations. *)
Ltac status_known :=
  repeat match goal with
         | H : (_ =? _) = true |- _ => apply Z.eqb_eq in H
         | H : (_ =? _) = false |- _ => apply Z.eqb_neq in H
         end.

Lemma wp_run {A : Type} (c : M A) (Q : post A) w o w' l :
  c w = mkRun o w' l -> Q o w' l -> wp c Q w.
Proof. unfold wp. by intros ->. Qed.

(** ** Layout inference (lines 98-120) *)

Section Layout.

Variable NDEBUG : bool.

Lemma infer_transpose_pure name st sz w :
  world (infer_transpose NDEBUG name st sz w) = w /\
  made (infer_transpose NDEBUG name st sz w) = [].
Proof.
  change (wp (infer_transpose NDEBUG name st sz)
             (fun _ w' l => w' = w /\ l = []) w).
  unfold infer_transpose. repeat wp_step; done.
Qed.

(** The inference never throws and never exits: it stops only at its
    [assert] or, on a list too short, at an index. *)
Lemma infer_transpose_stop name st sz w s :
  outcome (infer_transpose NDEBUG name st sz w) = Stopped s ->
  (exists msg, s = assert_fail msg /\ NDEBUG = false) \/
  (exists u, s = undefined u).
Proof.
  change (wp (infer_transpose NDEBUG name st sz)
             (fun o _ _ => o = Stopped s ->
                (exists msg, s = assert_fail msg /\ NDEBUG = false) \/
                (exists u, s = undefined u)) w).
  unfold infer_transpose.
  repeat wp_step; intros [=]; subst; eauto.
Qed.

(** On a 2-D operand the inference is this three-way choice. *)
Lemma infer_transpose_2d name s0 s1 z0 z1 w :
  infer_transpose NDEBUG name [s0; s1] [z0; z1] w =
  if (s0 =? 1) && (Z.max 1 z0 <=? s1) then mkRun (Done (Some false)) w []
  else if (s1 =? 1) && (Z.max 1 z1 <=? s0) then mkRun (Done (Some true)) w []
  else if NDEBUG then mkRun (Done None) w []
  else mkRun (Stopped (assert_fail
    "unusual strides detected, may need to clone a contiguous tensor")) w [].
Proof.
  unfold infer_transpose, and_then, bind, index, assert_false, ret, stop.
  cbn [lookup list_lookup after app].
  destruct (s0 =? 1), (s1 =? 1), (Z.max 1 z0 <=? s1), (Z.max 1 z1 <=? s0),
    NDEBUG; reflexivity.
Qed.

End Layout.

Section LayoutOfOperand.

Variable NDEBUG : bool.

Lemma infer_column_major x name w :
  column_major x ->
  infer_transpose NDEBUG name (strides x) (sizes x) w
  = mkRun (Done (Some false)) w [].
Proof.
  unfold column_major.
  destruct (strides x) as [|s0 [|s1 [|? ?]]]; try done.
  destruct (sizes x) as [|z0 [|z1 [|? ?]]]; try done.
  intros [-> H]. rewrite infer_transpose_2d.
  replace (Z.max 1 z0 <=? s1) with true by (symmetry; by apply Z.leb_le).
  reflexivity.
Qed.

Lemma infer_row_major x name w :
  ~ column_major x -> row_major x ->
  infer_transpose NDEBUG name (strides x) (sizes x) w
  = mkRun (Done (Some true)) w [].
Proof.
  unfold column_major, row_major.
  destruct (strides x) as [|s0 [|s1 [|? ?]]]; try done.
  destruct (sizes x) as [|z0 [|z1 [|? ?]]]; try done.
  intros Hc [-> H]. rewrite infer_transpose_2d.
  destruct ((s0 =? 1) && (Z.max 1 z0 <=? 1)) eqn:E.
  - exfalso. apply Hc. apply andb_prop in E as [E1 E2]. split; lia.
  - replace (Z.max 1 z1 <=? s0) with true by (symmetry; by apply Z.leb_le).
    reflexivity.
Qed.

Lemma infer_neither x name w :
  length (strides x) = 2%nat -> length (sizes x) = 2%nat ->
  ~ column_major x -> ~ row_major x ->
  infer_transpose NDEBUG name (strides x) (sizes x) w
  = if NDEBUG then mkRun (Done None) w []
    else mkRun (Stopped (assert_fail
      "unusual strides detected, may need to clone a contiguous tensor")) w [].
Proof.
  unfold column_major, row_major.
  destruct (strides x) as [|s0 [|s1 [|? ?]]]; try done.
  destruct (sizes x) as [|z0 [|z1 [|? ?]]]; try done.
  intros _ _ Hc Hr. rewrite infer_transpose_2d.
  destruct ((s0 =? 1) && (Z.max 1 z0 <=? s1)) eqn:E1.
  { exfalso. apply Hc. apply andb_prop in E1 as [? ?]. split; lia. }
  destruct ((s1 =? 1) && (Z.max 1 z1 <=? s0)) eqn:E2.
  { exfalso. apply Hr. apply andb_prop in E2 as [? ?]. split; lia. }
  reflexivity.
Qed.

End LayoutOfOperand.

Lemma fp8_mm_storage_a V NDEBUG a b result sa sb sr algo pad bytes w :
  fp8_mm V NDEBUG (with_storage a bytes) b result sa sb sr algo pad w
  = fp8_mm V NDEBUG a b result sa sb sr algo pad w.
Proof. reflexivity. Qed.

Lemma fp8_mm_storage_b V NDEBUG a b result sa sb sr algo pad bytes w :
  fp8_mm V NDEBUG a (with_storage b bytes) result sa sb sr algo pad w
  = fp8_mm V NDEBUG a b result sa sb sr algo pad w.
Proof. reflexivity. Qed.

(** C2, as the code has it.  The transpose flag of a 2-D operand is read off
    its strides and sizes alone: it is false for the column-major pattern,
    and true for the row-major pattern when the column-major one does not
    hold as well (the column-major test comes first).  The storage contents
    of the operands play no role in a run of [fp8_mm]. *)
Theorem transpose_inferred_from_strides_and_sizes (x : Tensor) :
  (forall NDEBUG name w,
     column_major x ->
     infer_transpose NDEBUG name (strides x) (sizes x) w
     = mkRun (Done (Some false)) w []) /\
  (forall NDEBUG name w,
     ~ column_major x -> row_major x ->
     infer_transpose NDEBUG name (strides x) (sizes x) w
     = mkRun (Done (Some true)) w []) /\
  (forall NDEBUG name w y,
     strides y = strides x -> sizes y = sizes x ->
     infer_transpose NDEBUG name (strides y) (sizes y) w
     = infer_transpose NDEBUG name (strides x) (sizes x) w) /\
  (forall V NDEBUG b result sa sb sr algo pad w bytes bytes',
     fp8_mm V NDEBUG (with_storage x bytes) (with_storage b bytes')
       result sa sb sr algo pad w
     = fp8_mm V NDEBUG x b result sa sb sr algo pad w) /\
  (forall V NDEBUG a result sa sb sr algo pad w bytes bytes',
     fp8_mm V NDEBUG (with_storage a bytes') (with_storage x bytes)
       result sa sb sr algo pad w
     = fp8_mm V NDEBUG a x result sa sb sr algo pad w).
Proof.
  split; [|split; [|split; [|split]]].
  - intros. by apply infer_column_major.
  - intros. by apply infer_row_major.
  - intros ? ? ? y -> ->. reflexivity.
  - intros. rewrite fp8_mm_storage_a. apply fp8_mm_storage_b.
  - intros. rewrite fp8_mm_storage_b. apply fp8_mm_storage_a.
Qed.

Lemma transpose_inferred_from_strides_and_sizes_witness :
  infer_transpose false "b" (strides Sample.b) (sizes Sample.b) Sample.ready
  = mkRun (Done (Some false)) Sample.ready [] /\
  infer_transpose false "a" (strides Sample.a) (sizes Sample.a) Sample.ready
  = mkRun (Done (Some true)) Sample.ready [].
Proof.
  split.
  - apply (proj1 (transpose_inferred_from_strides_and_sizes Sample.b)).
    unfold column_major. cbn. lia.
  - apply (proj1 (proj2
      (transpose_inferred_from_strides_and_sizes Sample.a))).
    + unfold column_major. cbn. lia.
    + unfold row_major. cbn. lia.
Defined.

(** C2 as stated fails where the two patterns overlap: a 1 x 1 operand has
    strides (1, 1), so it matches the row-major pattern, and its flag is
    inferred false. *)
Lemma row_major_pattern_inferred_false :
  row_major Sample.one_by_one /\
  infer_transpose false "a" (strides Sample.one_by_one)
    (sizes Sample.one_by_one) Sample.ready
  = mkRun (Done (Some false)) Sample.ready [] /\
  infer_transpose false "a" (strides Sample.one_by_one)
    (sizes Sample.one_by_one) Sample.ready
  <> mkRun (Done (Some true)) Sample.ready [].
Proof.
  split; [|split].
  - unfold row_major. cbn. lia.
  - reflexivity.
  - vm_compute. discriminate.
Qed.

(** ** Argument validation (lines 77-88) *)

Lemma wf_2d x :
  wf x -> dim x = 2 ->
  exists z0 z1, sizes x = [z0; z1] /\ 0 <= z0 < 2 ^ 63 /\ 0 <= z1 < 2 ^ 63 /\
                length (strides x) = 2%nat.
Proof.
  unfold wf, dim. intros [Hlen Hall] Hdim.
  destruct (sizes x) as [|z0 [|z1 [|? ?]]]; cbn in Hdim; try lia.
  exists z0, z1. inversion Hall as [|? ? H0 Hall']; subst.
  inversion Hall' as [|? ? H1 _]; subst. auto.
Qed.

(** What the four checks see when the precondition holds. *)
Lemma precondition_checks a b result pad :
  wf a -> wf b -> Int.fits64 pad -> precondition a b result pad ->
  exists n k kp m,
    sizes a = [n; k] /\ sizes b = [kp; m] /\ k = kp - pad /\
    (k =? Int.sub64 kp pad) = true /\
    length (strides a) = 2%nat /\ length (strides b) = 2%nat /\
    (bool_decide (dtype a = kFloat8_e4m3fnuz) &&
     bool_decide (dtype b = kFloat8_e4m3fnuz)) = true /\
    ((dim a =? 2) && (dim b =? 2)) = true /\
    (bool_decide (dtype result = kFloat8_e4m3fnuz) ||
     bool_decide (dtype result = kFloat16) ||
     bool_decide (dtype result = kBFloat16)) = true.
Proof.
  intros Wa Wb Hp ([Ha Hb] & [Da Db] & Hk & Hr).
  destruct (wf_2d a Wa Da) as (n & k & Sa & Rn & Rk & La).
  destruct (wf_2d b Wb Db) as (kp & m & Sb & Rkp & Rm & Lb).
  exists n, k, kp, m. rewrite Sa, Sb in Hk. cbn in Hk.
  injection Hk as Hk.
  repeat split; try assumption.
  - rewrite sub64_compare by assumption. by apply Z.eqb_eq.
  - rewrite !bool_decide_eq_true_2 by assumption. reflexivity.
  - rewrite Da, Db. reflexivity.
  - destruct Hr as [Hr|[Hr|Hr]]; rewrite Hr; reflexivity.
Qed.

(** Conversely, four checks that pass establish it. *)
Lemma checks_precondition a b result pad a1 b0 :
  wf a -> wf b -> Int.fits64 pad ->
  (bool_decide (dtype a = kFloat8_e4m3fnuz) &&
   bool_decide (dtype b = kFloat8_e4m3fnuz)) = true ->
  ((dim a =? 2) && (dim b =? 2)) = true ->
  sizes a !! 1%nat = Some a1 -> sizes b !! 0%nat = Some b0 ->
  (a1 =? Int.sub64 b0 pad) = true ->
  (bool_decide (dtype result = kFloat8_e4m3fnuz) ||
   bool_decide (dtype result = kFloat16) ||
   bool_decide (dtype result = kBFloat16)) = true ->
  precondition a b result pad.
Proof.
  intros Wa Wb Hp C1 C2 Ia Ib C3 C4.
  apply andb_prop in C1 as [C1a C1b].
  apply bool_decide_eq_true in C1a. apply bool_decide_eq_true in C1b.
  apply andb_prop in C2 as [C2a C2b].
  apply Z.eqb_eq in C2a. apply Z.eqb_eq in C2b.
  destruct (wf_2d a Wa C2a) as (n & k & Sa & Rn & Rk & La).
  destruct (wf_2d b Wb C2b) as (kp & m & Sb & Rkp & Rm & Lb).
  rewrite Sa in Ia. rewrite Sb in Ib. cbn in Ia, Ib.
  injection Ia as <-. injection Ib as <-.
  rewrite sub64_compare in C3 by assumption. apply Z.eqb_eq in C3.
  repeat split; try assumption.
  - rewrite Sa, Sb. cbn. by rewrite C3.
  - apply orb_prop in C4 as [C4|C4].
    + apply orb_prop in C4 as [C4|C4]; apply bool_decide_eq_true in C4; auto.
    + apply bool_decide_eq_true in C4; auto.
Qed.

(** The layout inference as one step: it makes no call and leaves the
    statics alone, so only its outcome matters to what follows. *)
Ltac wp_infer :=
  lazymatch goal with
  | |- wp (infer_transpose ?nd ?n ?st ?sz) _ ?w =>
      apply wp_pure;
      [ apply (infer_transpose_pure nd n st sz w)
      | apply (infer_transpose_pure nd n st sz w)
      | let o := fresh "o" in
        let E := fresh "Einfer" in
        intros o E; destruct o as [[[]|]|] ]
  end.

(** Under the precondition the four checks pass, and the run continues with
    the layout inference. *)
Ltac enter_valid Wa Wb Hp Hpre :=
  let n := fresh "n" in
  let k := fresh "k" in
  let kp := fresh "kp" in
  let m := fresh "m" in
  destruct (precondition_checks _ _ _ _ Wa Wb Hp Hpre)
    as (n & k & kp & m & Sa & Sb & Hk & C3 & La & Lb & C1 & C2 & C4);
  unfold fp8_mm; rewrite ?Sa, ?Sb;
  repeat first [wp_known | wp_det].

Ltac wp_all := repeat first [wp_infer | wp_known | wp_det | wp_branch].

Section Validation.

Variable V : Vendor.
Variable NDEBUG : bool.

Lemma rejected_without_call a b result sa sb sr algo pad w :
  wf a -> wf b -> Int.fits64 pad ->
  ~ precondition a b result pad ->
  wp (fp8_mm V NDEBUG a b result sa sb sr algo pad)
     (fun o w' l => exists msg, o = Stopped (c10_Error msg) /\ w' = w /\ l = [])
     w.
Proof.
  intros Wa Wb Hp Hnot. unfold fp8_mm.
  repeat wp_det. wp_branch; [|wp_det; eauto].
  repeat wp_det. wp_branch; [|wp_det; eauto].
  assert (D := Heqb1). apply andb_prop in D as [Da Db].
  apply Z.eqb_eq in Da. apply Z.eqb_eq in Db.
  destruct (wf_2d a Wa Da) as (n & k & Sa & _).
  destruct (wf_2d b Wb Db) as (kp & m & Sb & _).
  rewrite Sa, Sb.
  repeat wp_det. wp_branch; [|wp_det; eauto].
  repeat wp_det. wp_branch; [|wp_det; eauto].
  exfalso. apply Hnot.
  eapply checks_precondition; try eassumption; by rewrite ?Sa, ?Sb.
Qed.

Lemma accepted_reaches_library a b result sa sb sr algo pad w :
  wf a -> wf b -> Int.fits64 pad ->
  precondition a b result pad ->
  wp (fp8_mm V NDEBUG a b result sa sb sr algo pad)
     (fun o _ l => forall msg, o = Stopped (c10_Error msg) -> l <> []) w.
Proof.
  intros Wa Wb Hp Hpre. enter_valid Wa Wb Hp Hpre.
  wp_all; cbn [app]; intros msg [=]; try discriminate; subst.
  all: match goal with
       | H : outcome (infer_transpose _ _ _ _ _) = Stopped _ |- _ =>
           apply infer_transpose_stop in H as [(? & ? & ?)|(? & ?)];
           discriminate
       end.
Qed.

End Validation.

(** C1, as the code has it.  [fp8_mm] ends in a check error before it
    touches the library, with no call made and the statics untouched,
    exactly when the precondition on its tensor arguments fails:
    operands of type float8_e4m3fnuz, both 2-D, [a.sizes[1]] equal to
    [b.sizes[0] - padding_size], and a result of type float8_e4m3fnuz,
    float16 or bfloat16. *)
Theorem fp8_mm_rejects_exactly_invalid_arguments
    V NDEBUG a b result sa sb sr algo pad w :
  wf a -> wf b -> Int.fits64 pad ->
  (~ precondition a b result pad <->
   exists msg,
     fp8_mm V NDEBUG a b result sa sb sr algo pad w
     = mkRun (Stopped (c10_Error msg)) w []).
Proof.
  intros Wa Wb Hp. split.
  - intros Hnot.
    destruct (rejected_without_call V NDEBUG a b result sa sb sr algo pad w
                Wa Wb Hp Hnot) as (msg & Ho & Hw & Hl).
    exists msg. by apply run_eq.
  - intros [msg E] Hpre.
    pose proof (accepted_reaches_library V NDEBUG a b result sa sb sr algo
                  pad w Wa Wb Hp Hpre) as H.
    unfold wp in H. rewrite E in H. cbn in H. by apply (H msg).
Qed.

Lemma fp8_mm_rejects_exactly_invalid_arguments_witness :
  exists msg,
    fp8_mm Sample.vendor false Sample.a_float Sample.b Sample.result
      Sample.scale_a Sample.scale_b None 0 0 Sample.ready
    = mkRun (Stopped (c10_Error msg)) Sample.ready [].
Proof.
  apply (fp8_mm_rejects_exactly_invalid_arguments Sample.vendor false
           Sample.a_float Sample.b Sample.result Sample.scale_a
           Sample.scale_b None 0 0 Sample.ready).
  - apply wfb_wf. reflexivity.
  - apply wfb_wf. reflexivity.
  - unfold Int.fits64. lia.
  - intros [[H _] _]. discriminate H.
Defined.
(** C1 as stated fails on valid arguments.  When [getAlgosFromIndex]
    reports a failure [fp8_mm] raises an error and launches no kernel,
    although every precondition on the tensor arguments holds; the error
    comes after the library was called, not before. *)
Lemma valid_arguments_raise_after_library_calls :
  let r := fp8_mm Sample.vendor_lookup_fails false Sample.a Sample.b
             Sample.result Sample.scale_a Sample.scale_b None 5 0
             Sample.ready in
  precondition Sample.a Sample.b Sample.result 0 /\
  outcome r
  = Stopped (c10_Error
      "CUDA error: <unknown> when calling `hipblaslt_ext::getAlgosFromIndex(handle, algoIndex, tmpAlgo)`") /\
  (forall s, ~ In (run s) (made r)) /\
  last (made r) = Some (getAlgosFromIndex 11 [5]).
Proof.
  split; [|split; [|split]].
  - unfold precondition. cbn. auto 10.
  - reflexivity.
  - intros s Hin. vm_compute in Hin.
    repeat (destruct Hin as [Hin|Hin]; [discriminate Hin|]). exact Hin.
  - reflexivity.
Qed.

(** ** Layout inference inside [fp8_mm] *)

(** A 2-D operand is in exactly one of three situations. *)
Lemma layout_cases NDEBUG x name w :
  length (strides x) = 2%nat -> length (sizes x) = 2%nat ->
  (column_major x /\
   infer_transpose NDEBUG name (strides x) (sizes x) w
   = mkRun (Done (Some false)) w []) \/
  (~ column_major x /\ row_major x /\
   infer_transpose NDEBUG name (strides x) (sizes x) w
   = mkRun (Done (Some true)) w []) \/
  (~ column_major x /\ ~ row_major x /\
   infer_transpose NDEBUG name (strides x) (sizes x) w
   = if NDEBUG then mkRun (Done None) w []
     else mkRun (Stopped (assert_fail
       "unusual strides detected, may need to clone a contiguous tensor"))
       w []).
Proof.
  intros Ls Lz.
  assert (Dc : column_major x \/ ~ column_major x).
  { unfold column_major.
    destruct (strides x) as [|s0 [|s1 [|? ?]]]; try discriminate.
    destruct (sizes x) as [|z0 [|z1 [|? ?]]]; try discriminate.
    destruct (Z.eq_dec s0 1), (Z_le_dec (Z.max 1 z0) s1); tauto. }
  assert (Dr : row_major x \/ ~ row_major x).
  { unfold row_major.
    destruct (strides x) as [|s0 [|s1 [|? ?]]]; try discriminate.
    destruct (sizes x) as [|z0 [|z1 [|? ?]]]; try discriminate.
    destruct (Z.eq_dec s1 1), (Z_le_dec (Z.max 1 z1) s0); tauto. }
  destruct Dc as [Hc|Hc].
  - left. split; [assumption|]. by apply infer_column_major.
  - destruct Dr as [Hr|Hr].
    + right. left. repeat split; try assumption. by apply infer_row_major.
    + right. right. repeat split; try assumption. by apply infer_neither.
Qed.

(** C9.  For a call that passes the argument checks, the transpose flags
    are defined only when each operand matches the column-major or the
    row-major stride pattern.  Then both flags are assigned and the run
    neither fails the assertion nor reads an unassigned flag.  When an
    operand matches neither pattern, no call has been made when the run
    reaches the failed assertion, with assertions compiled in, or otherwise
    the read of a flag that was left unassigned. *)
Theorem layout_inference_is_partial
    V NDEBUG a b result sa sb sr algo pad w :
  wf a -> wf b -> Int.fits64 pad -> precondition a b result pad ->
  let r := fp8_mm V NDEBUG a b result sa sb sr algo pad w in
  let laid_out x := column_major x \/ row_major x in
  (laid_out a /\ laid_out b ->
   (exists ta tb,
      infer_transpose NDEBUG "a" (strides a) (sizes a) w
      = mkRun (Done (Some ta)) w [] /\
      infer_transpose NDEBUG "b" (strides b) (sizes b) w
      = mkRun (Done (Some tb)) w []) /\
   (forall msg, outcome r <> Stopped (assert_fail msg)) /\
   (forall v, outcome r <> Stopped (undefined (uninitialized_read v)))) /\
  (~ (laid_out a /\ laid_out b) ->
   made r = [] /\ world r = w /\
   (NDEBUG = false ->
    outcome r = Stopped (assert_fail
      "unusual strides detected, may need to clone a contiguous tensor")) /\
   (NDEBUG = true ->
    (exists v, outcome r = Stopped (undefined (uninitialized_read v))) /\
    (infer_transpose NDEBUG "a" (strides a) (sizes a) w
     = mkRun (Done None) w [] \/
     infer_transpose NDEBUG "b" (strides b) (sizes b) w
     = mkRun (Done None) w []))).
Proof.
  intros Wa Wb Hp Hpre r laid_out. subst r laid_out.
  destruct (precondition_checks _ _ _ _ Wa Wb Hp Hpre)
    as (n & k & kp & m & Sa & Sb & Hk & C3 & La & Lb & C1 & C2 & C4).
  assert (Za : length (sizes a) = 2%nat) by by rewrite Sa.
  assert (Zb : length (sizes b) = 2%nat) by by rewrite Sb.
  destruct (layout_cases NDEBUG a "a" w La Za)
    as [(Ac & Ea)|[(Ac & Ar & Ea)|(Ac & Ar & Ea)]];
  destruct (layout_cases NDEBUG b "b" w Lb Zb)
    as [(Bc & Eb)|[(Bc & Br & Eb)|(Bc & Br & Eb)]].
  all: split; [intros [Ha Hb] | intros Hnot].
  all: try (exfalso; tauto).
  all: try (split; [solve [eauto]|]).
  all: try match goal with
    | |- (forall _, outcome ?r <> _) /\ (forall _, outcome ?r <> _) =>
        change (wp (fp8_mm V NDEBUG a b result sa sb sr algo pad)
          (fun o _ _ =>
             (forall msg, o <> Stopped (assert_fail msg)) /\
             (forall v, o <> Stopped (undefined (uninitialized_read v)))) w)
    | |- made ?r = [] /\ world ?r = _ /\ _ =>
        change (wp (fp8_mm V NDEBUG a b result sa sb sr algo pad)
          (fun o w' l =>
             l = [] /\ w' = w /\
             (NDEBUG = false -> o = Stopped (assert_fail
                "unusual strides detected, may need to clone a contiguous tensor")) /\
             (NDEBUG = true ->
              (exists v, o = Stopped (undefined (uninitialized_read v))) /\
              (infer_transpose NDEBUG "a" (strides a) (sizes a) w
               = mkRun (Done None) w [] \/
               infer_transpose NDEBUG "b" (strides b) (sizes b) w
               = mkRun (Done None) w []))) w);
        destruct NDEBUG
    end.
  all: unfold fp8_mm; rewrite Sa, Sb in *; repeat first [wp_known | wp_det].
  all: (eapply wp_run; [exact Eb|]); cbn beta iota;
       repeat first [wp_known | wp_det].
  all: try ((eapply wp_run; [exact Ea|]); cbn beta iota;
            repeat first [wp_known | wp_det]).
  all: try (wp_all; split; intros; discriminate).
  all: cbn [app]; repeat split; intros; try discriminate; eauto.
Qed.

Lemma sample_precondition :
  precondition Sample.a Sample.b Sample.result 0.
Proof. unfold precondition. cbn. auto 10. Qed.

Lemma layout_inference_is_partial_witness :
  let r := fp8_mm Sample.vendor true Sample.strided Sample.b Sample.result
             Sample.scale_a Sample.scale_b None 0 0 Sample.ready in
  made r = [] /\
  exists v, outcome r = Stopped (undefined (uninitialized_read v)).
Proof.
  assert (Wa : wf Sample.strided) by (apply wfb_wf; reflexivity).
  assert (Wb : wf Sample.b) by (apply wfb_wf; reflexivity).
  assert (Hp : Int.fits64 0) by (unfold Int.fits64; lia).
  assert (Hpre : precondition Sample.strided Sample.b Sample.result 0)
    by exact sample_precondition.
  destruct (layout_inference_is_partial Sample.vendor true Sample.strided
              Sample.b Sample.result Sample.scale_a Sample.scale_b None 0 0
              Sample.ready Wa Wb Hp Hpre) as [_ H].
  destruct H as (Hm & _ & _ & Hu).
  - intros [[Hc|Hr] _].
    + unfold column_major in Hc. cbn in Hc. lia.
    + unfold row_major in Hr. cbn in Hr. lia.
  - split; [exact Hm|]. by destruct (Hu eq_refl).
Defined.

(** ** The problem handed to the library (lines 122-183) *)

(** For a call that passes the checks and whose layouts are inferred, the
    first three calls and what they carry. *)
Lemma accepted_problem V NDEBUG a b result sa sb sr algo pad w ta tb :
  wf a -> wf b -> Int.fits64 pad -> precondition a b result pad ->
  infer_transpose NDEBUG "a" (strides a) (sizes a) w
  = mkRun (Done (Some ta)) w [] ->
  infer_transpose NDEBUG "b" (strides b) (sizes b) w
  = mkRun (Done (Some tb)) w [] ->
  exists n k kp m pt args rest,
    sizes a = [n; k] /\ sizes b = [kp; m] /\ k = kp - pad /\
    made (fp8_mm V NDEBUG a b result sa sb sr algo pad w)
    = setMaxWorkspaceBytes (workspace_size w)
      :: Gemm (v_handle V) pt :: getProblemTypes
      :: setProblem args :: rest /\
    pt = p_problemtype args /\
    (p_m args = m /\ p_n args = n /\ p_k args = k /\
     p_batch_count args = 1) /\
    (p_strideA args = Int.mul64 m (Int.add64 k pad) /\
     p_strideB args = Int.mul64 n k /\
     p_strideC args = Int.mul64 m n /\
     p_strideD args = Int.mul64 m n) /\
    (op_a (p_problemtype args) = op_of (negb tb) /\
     op_b (p_problemtype args) = op_of (negb ta)) /\
    (in_a (p_inputs args) = data_ptr b /\
     in_b (p_inputs args) = data_ptr a /\
     in_c (p_inputs args) = data_ptr result /\
     in_d (p_inputs args) = data_ptr result) /\
    (in_scaleA (p_inputs args) = data_ptr sa /\
     in_scaleB (p_inputs args) = data_ptr sb /\
     in_scaleD (p_inputs args)
     = match sr with Some t => data_ptr t | None => nullptr end).
Proof.
  intros Wa Wb Hp Hpre Ea Eb.
  destruct (precondition_checks _ _ _ _ Wa Wb Hp Hpre)
    as (n & k & kp & m & Sa & Sb & Hk & C3 & La & Lb & C1 & C2 & C4).
  exists n, k, kp, m.
  assert (Ek : Int.sub64 kp pad = k) by (symmetry; by apply Z.eqb_eq).
  change (wp (fp8_mm V NDEBUG a b result sa sb sr algo pad)
    (fun _ _ l => exists pt args rest,
       sizes a = [n; k] /\ sizes b = [kp; m] /\ k = kp - pad /\
       l = setMaxWorkspaceBytes (workspace_size w)
           :: Gemm (v_handle V) pt :: getProblemTypes
           :: setProblem args :: rest /\
       pt = p_problemtype args /\
       (p_m args = m /\ p_n args = n /\ p_k args = k /\
        p_batch_count args = 1) /\
       (p_strideA args = Int.mul64 m (Int.add64 k pad) /\
        p_strideB args = Int.mul64 n k /\
        p_strideC args = Int.mul64 m n /\
        p_strideD args = Int.mul64 m n) /\
       (op_a (p_problemtype args) = op_of (negb tb) /\
        op_b (p_problemtype args) = op_of (negb ta)) /\
       (in_a (p_inputs args) = data_ptr b /\
        in_b (p_inputs args) = data_ptr a /\
        in_c (p_inputs args) = data_ptr result /\
        in_d (p_inputs args) = data_ptr result) /\
       (in_scaleA (p_inputs args) = data_ptr sa /\
        in_scaleB (p_inputs args) = data_ptr sb /\
        in_scaleD (p_inputs args)
        = match sr with Some t => data_ptr t | None => nullptr end)) w).
  unfold fp8_mm. rewrite Sa, Sb in *. repeat first [wp_known | wp_det].
  eapply wp_run; [exact Eb|]. cbn beta iota.
  repeat first [wp_known | wp_det].
  eapply wp_run; [exact Ea|]. cbn beta iota.
  repeat first [wp_known | wp_det].
  rewrite Ek.
  wp_all; cbn [app]; do 3 eexists;
    (split; [reflexivity|]); (split; [reflexivity|]);
    (split; [assumption|]); (split; [reflexivity|]);
    (split; [reflexivity|]); cbn; auto 20.
Qed.

(** C3.  For a valid call the metadata reaches the library with the operands
    exchanged: the library's A is [b] with the negation of [b]'s inferred
    flag, its B is [a] with the negation of [a]'s, and [setProblem] gets
    m = b.sizes[1], n = a.sizes[0], k = b.sizes[0] - padding_size
    (= a.sizes[1]), batch count 1 and the strides m*(k + padding_size), n*k
    and m*n, computed in [int64_t]. *)
Theorem problem_description_exchanges_operands
    V NDEBUG a b result sa sb sr algo pad w ta tb :
  wf a -> wf b -> Int.fits64 pad -> precondition a b result pad ->
  infer_transpose NDEBUG "a" (strides a) (sizes a) w
  = mkRun (Done (Some ta)) w [] ->
  infer_transpose NDEBUG "b" (strides b) (sizes b) w
  = mkRun (Done (Some tb)) w [] ->
  exists m n k args rest,
    made (fp8_mm V NDEBUG a b result sa sb sr algo pad w)
    = setMaxWorkspaceBytes (workspace_size w)
      :: Gemm (v_handle V) (p_problemtype args) :: getProblemTypes
      :: setProblem args :: rest /\
    (in_a (p_inputs args) = data_ptr b /\
     op_a (p_problemtype args) = op_of (negb tb)) /\
    (in_b (p_inputs args) = data_ptr a /\
     op_b (p_problemtype args) = op_of (negb ta)) /\
    (sizes b !! 1%nat = Some m /\ sizes a !! 0%nat = Some n /\
     sizes b !! 0%nat = Some (k + pad) /\ sizes a !! 1%nat = Some k) /\
    (p_m args = m /\ p_n args = n /\ p_k args = k /\
     p_batch_count args = 1) /\
    (p_strideA args = Int.int64 (m * (k + pad)) /\
     p_strideB args = Int.int64 (n * k) /\
     p_strideC args = Int.int64 (m * n)) /\
    (Int.fits64 (m * (k + pad)) -> p_strideA args = m * (k + pad)) /\
    (Int.fits64 (n * k) -> p_strideB args = n * k) /\
    (Int.fits64 (m * n) -> p_strideC args = m * n).
Proof.
  intros Wa Wb Hp Hpre Ea Eb.
  destruct (accepted_problem V NDEBUG a b result sa sb sr algo pad w ta tb
              Wa Wb Hp Hpre Ea Eb)
    as (n & k & kp & m & pt & args & rest & Sa & Sb & Hk & Hmade & -> &
        (Hm & Hn & Hpk & Hbatch) & (HsA & HsB & HsC & _) &
        (Hopa & Hopb) & (Hia & Hib & _) & _).
  assert (Rkp : Int.fits64 (k + pad)).
  { destruct Wb as [_ Hall]. rewrite Sb in Hall.
    inversion Hall as [|? ? H0 _]; subst. unfold Int.fits64. lia. }
  assert (Eadd : Int.add64 k pad = k + pad) by by apply int64_fits.
  rewrite Eadd in HsA. unfold Int.mul64 in *.
  exists m, n, k, args, rest.
  split; [exact Hmade|]. split; [auto|]. split; [auto|].
  split. { rewrite Sa, Sb. cbn. repeat split. f_equal. lia. }
  split; [auto|]. split; [auto|].
  repeat split; intros F.
  - rewrite HsA. by apply int64_fits.
  - rewrite HsB. by apply int64_fits.
  - rewrite HsC. by apply int64_fits.
Qed.

Lemma sample_infer_a :
  infer_transpose false "a" (strides Sample.a) (sizes Sample.a) Sample.ready
  = mkRun (Done (Some true)) Sample.ready [].
Proof. reflexivity. Qed.

Lemma sample_infer_b :
  infer_transpose false "b" (strides Sample.b) (sizes Sample.b) Sample.ready
  = mkRun (Done (Some false)) Sample.ready [].
Proof. reflexivity. Qed.

Lemma problem_description_exchanges_operands_witness :
  exists m n k args rest,
    made (fp8_mm Sample.vendor false Sample.a Sample.b Sample.result
            Sample.scale_a Sample.scale_b None 0 0 Sample.ready)
    = setMaxWorkspaceBytes 65536
      :: Gemm 11 (p_problemtype args) :: getProblemTypes
      :: setProblem args :: rest /\
    (in_a (p_inputs args) = 200 /\
     op_a (p_problemtype args) = HIPBLAS_OP_T) /\
    (in_b (p_inputs args) = 100 /\
     op_b (p_problemtype args) = HIPBLAS_OP_N) /\
    (m = 4 /\ n = 2 /\ k = 3) /\
    (p_m args = m /\ p_n args = n /\ p_k args = k /\
     p_batch_count args = 1) /\
    (p_strideA args = 12 /\ p_strideB args = 6 /\ p_strideC args = 8).
Proof.
  destruct (problem_description_exchanges_operands Sample.vendor false
              Sample.a Sample.b Sample.result Sample.scale_a Sample.scale_b
              None 0 0 Sample.ready true false)
    as (m & n & k & args & rest & Hmade & HA & HB & Hsz & Hdim & _ &
        FA & FB & FC).
  - apply wfb_wf. reflexivity.
  - apply wfb_wf. reflexivity.
  - unfold Int.fits64. lia.
  - exact sample_precondition.
  - exact sample_infer_a.
  - exact sample_infer_b.
  - destruct Hsz as (Hm & Hn & _ & Hk). cbn in Hm, Hn, Hk.
    injection Hm as <-. injection Hn as <-. injection Hk as <-.
    exists 4, 2, 3, args, rest.
    split; [exact Hmade|]. split; [exact HA|]. split; [exact HB|].
    split; [auto|]. split; [exact Hdim|].
    repeat split.
    + apply FA. unfold Int.fits64. lia.
    + apply FB. unfold Int.fits64. lia.
    + apply FC. unfold Int.fits64. lia.
Defined.

(** C5, on the code.  The library's operand A is [b] and its scale A is
    [scale_a]; its operand B is [a] and its scale B is [scale_b]: the data
    pointers are exchanged for the transposed result, the scale pointers are
    not.  Evaluated on the sample call, whose two scales are at different
    addresses. *)
Theorem scale_pointers_stay_while_operands_are_exchanged :
  exists args rest,
    made (fp8_mm Sample.vendor false Sample.a Sample.b Sample.result
            Sample.scale_a Sample.scale_b None 0 0 Sample.ready)
    = setMaxWorkspaceBytes 65536
      :: Gemm 11 (p_problemtype args) :: getProblemTypes
      :: setProblem args :: rest /\
    in_a (p_inputs args) = data_ptr Sample.b /\
    in_scaleA (p_inputs args) = data_ptr Sample.scale_a /\
    in_b (p_inputs args) = data_ptr Sample.a /\
    in_scaleB (p_inputs args) = data_ptr Sample.scale_b /\
    in_scaleA (p_inputs args) <> data_ptr Sample.scale_b /\
    in_scaleB (p_inputs args) <> data_ptr Sample.scale_a.
Proof.
  destruct (accepted_problem Sample.vendor false Sample.a Sample.b
              Sample.result Sample.scale_a Sample.scale_b None 0 0
              Sample.ready true false)
    as (n & k & kp & m & pt & args & rest & _ & _ & _ & Hmade & -> &
        _ & _ & _ & (Hia & Hib & _) & (Hsa & Hsb & _)).
  - apply wfb_wf. reflexivity.
  - apply wfb_wf. reflexivity.
  - unfold Int.fits64. lia.
  - exact sample_precondition.
  - exact sample_infer_a.
  - exact sample_infer_b.
  - exists args, rest. rewrite Hsa, Hsb.
    repeat split; try assumption; cbn; discriminate.
Qed.

(** ** Output pointers (lines 140-171) *)

(** Closing a leaf of the exploration: a property of every call of a
    finite list. *)
Ltac each_call Hin :=
  repeat (destruct Hin as [Hin|Hin]; [try discriminate Hin|]);
  try contradiction.

Lemma set_problem_outputs V NDEBUG a b result sa sb sr algo pad w :
  wp (fp8_mm V NDEBUG a b result sa sb sr algo pad)
     (fun _ _ l => forall args, In (setProblem args) l ->
        in_c (p_inputs args) = data_ptr result /\
        in_d (p_inputs args) = data_ptr result /\
        in_scaleD (p_inputs args)
        = match sr with Some t => data_ptr t | None => nullptr end) w.
Proof.
  unfold fp8_mm.
  wp_all; cbn [app]; intros args Hin; each_call Hin;
    injection Hin as <-; cbn; auto.
Qed.

(** C6.  Whatever the call, a problem handed to the library carries
    [result.data_ptr()] as both C and D, and as output scale the data
    pointer of [scale_result] when it is present and the null pointer when
    it is absent; and a valid call does hand over a problem. *)
Theorem outputs_go_to_caller_buffers
    V NDEBUG a b result sa sb sr algo pad w :
  let r := fp8_mm V NDEBUG a b result sa sb sr algo pad w in
  (forall args, In (setProblem args) (made r) ->
     in_c (p_inputs args) = data_ptr result /\
     in_d (p_inputs args) = data_ptr result /\
     (forall t, sr = Some t -> in_scaleD (p_inputs args) = data_ptr t) /\
     (sr = None -> in_scaleD (p_inputs args) = nullptr)) /\
  (forall ta tb,
     wf a -> wf b -> Int.fits64 pad -> precondition a b result pad ->
     infer_transpose NDEBUG "a" (strides a) (sizes a) w
     = mkRun (Done (Some ta)) w [] ->
     infer_transpose NDEBUG "b" (strides b) (sizes b) w
     = mkRun (Done (Some tb)) w [] ->
     exists args, In (setProblem args) (made r)).
Proof.
  intros r. subst r. split.
  - intros args Hin.
    destruct (set_problem_outputs V NDEBUG a b result sa sb sr algo pad w
                args Hin) as (Hc & Hd & Hs).
    repeat split; try assumption.
    + intros t ->. exact Hs.
    + intros ->. exact Hs.
  - intros ta tb Wa Wb Hp Hpre Ea Eb.
    destruct (accepted_problem V NDEBUG a b result sa sb sr algo pad w ta tb
                Wa Wb Hp Hpre Ea Eb)
      as (n & k & kp & m & pt & args & rest & _ & _ & _ & Hmade & _).
    exists args. rewrite Hmade. cbn. auto.
Qed.

Lemma outputs_go_to_caller_buffers_witness :
  exists args,
    In (setProblem args)
       (made (fp8_mm Sample.vendor false Sample.a Sample.b Sample.result
                Sample.scale_a Sample.scale_b (Some Sample.scale_result)
                0 0 Sample.ready)) /\
    in_c (p_inputs args) = 300 /\ in_d (p_inputs args) = 300 /\
    in_scaleD (p_inputs args) = 403.
Proof.
  destruct (outputs_go_to_caller_buffers Sample.vendor false Sample.a
              Sample.b Sample.result Sample.scale_a Sample.scale_b
              (Some Sample.scale_result) 0 0 Sample.ready) as [Hall Hex].
  destruct (Hex true false) as [args Hin].
  - apply wfb_wf. reflexivity.
  - apply wfb_wf. reflexivity.
  - unfold Int.fits64. lia.
  - exact sample_precondition.
  - exact sample_infer_a.
  - exact sample_infer_b.
  - exists args. split; [exact Hin|].
    destruct (Hall args Hin) as (Hc & Hd & Hs & _).
    repeat split; try assumption. exact (Hs Sample.scale_result eq_refl).
Defined.

(** ** The workspace (lines 37-66 and its uses in [fp8_mm]) *)

Lemma wp_static_getenv name (Q : post ptr) w :
  (forall p, env w = Some p -> Q (Done p) w []) ->
  (env w = None ->
   Q (Done (getenv (environ w) name))
     {| environ := environ w; env := Some (getenv (environ w) name);
        workspace := workspace w; workspace_size := workspace_size w |} []) ->
  wp (static_getenv name) Q w.
Proof.
  unfold wp, static_getenv. intros H1 H2.
  destruct (env w) as [e|]; cbn; auto.
Qed.

Lemma size_t_scaled v :
  Int.size_t (Int.size_t v * 1024) = (1024 * v) mod 2 ^ 64.
Proof.
  unfold Int.size_t. rewrite Z.mul_mod_idemp_l by lia. f_equal. lia.
Qed.

Lemma get_size_run w :
  wp get_hipblaslt_workspace_size
     (fun o w' l =>
        o = Done (size_read (env_seen w)) /\
        environ w' = environ w /\ env w' = Some (env_pointer w) /\
        workspace w' = workspace w /\ workspace_size w' = workspace_size w /\
        l = warned (env_seen w)) w.
Proof.
  unfold get_hipblaslt_workspace_size.
  repeat first [apply wp_static_getenv; intros | wp_det | wp_branch].
  all: unfold size_read, warned, env_seen, env_pointer; subst;
    repeat match goal with
           | H : env _ = _ |- _ => rewrite H
           end;
    cbn [workspace_size environ env workspace app length In] in *.
  all: repeat match goal with
           | H : (_ =? nullptr) = _ |- _ => rewrite H
           | H : Stoi.stoi _ = _ |- _ => rewrite H
           end.
  all: rewrite ?size_t_scaled.
  all: change (Int.size_t (32 * 1024 * 1024)) with (32 * 1024 * 1024).
  all: repeat split; reflexivity.
Qed.

Lemma warned_calls seen c :
  In c (warned seen) -> exists t, c = TORCH_WARN t (32 * 1024).
Proof.
  unfold warned. destruct seen as [text|]; [|intros []].
  destruct (Stoi.stoi text); intros Hin; each_call Hin; subst; eauto.
Qed.

Lemma wp_mono {A : Type} (c : M A) (Q Q' : post A) w :
  wp c Q w -> (forall o w' l, Q o w' l -> Q' o w' l) -> wp c Q' w.
Proof. unfold wp. auto. Qed.

Lemma size_read_range seen : 0 <= size_read seen.
Proof.
  unfold size_read. destruct seen as [text|]; [|lia].
  destruct (Stoi.stoi text); try lia.
  apply Z.mod_pos_bound. lia.
Qed.

(** One call of [create_workspace], in full: the size it stores, the
    warning it may give, and what becomes of the allocation. *)
Lemma create_workspace_run V w :
  wp (create_workspace V)
     (fun o w' l =>
        let size := size_read (env_seen w) in
        let warnings := warned (env_seen w) in
        workspace_size w' = size /\
        environ w' = environ w /\ env w' = Some (env_pointer w) /\
        (size = 0 /\ l = warnings /\ o = Done tt /\
         workspace w' = workspace w \/
         0 < size /\ fst (v_hipMalloc V size) = hipSuccess /\
         l = (warnings ++ [hipMalloc size])%list /\ o = Done tt /\
         workspace w' = snd (v_hipMalloc V size) \/
         0 < size /\ fst (v_hipMalloc V size) <> hipSuccess /\
         l = (warnings
              ++ [hipMalloc size; hipMalloc size; hipMalloc size])%list /\
         o = Stopped (exit_failure CHECK_HIP_ERROR
                        (fst (v_hipMalloc V size))) /\
         workspace w' = snd (v_again V 2 (hipMalloc size)))) w.
Proof.
  unfold create_workspace. apply wp_bind.
  eapply wp_mono; [apply get_size_run|].
  intros o w1 l1 (-> & He & Hp & Hw & Hs & ->).
  pose proof (size_read_range (env_seen w)) as Hrange.
  set (size := size_read (env_seen w)) in *.
  set (warnings := warned (env_seen w)) in *.
  repeat first [wp_det | wp_branch];
    cbn [workspace_size environ env workspace app fst snd] in *;
    status_known;
    repeat match goal with
           | H : (0 <? _) = true |- _ => apply Z.ltb_lt in H
           | H : (0 <? _) = false |- _ => apply Z.ltb_ge in H
           | H : v_hipMalloc _ _ = _ |- _ => rewrite H
           end;
    cbn [fst snd];
    (split; [reflexivity|]); (split; [assumption|]);
    (split; [assumption|]).
  - right. left. auto.
  - right. right.
    repeat match goal with
           | H : v_again _ _ _ = _ |- _ => rewrite H
           end.
    auto 10.
  - left. rewrite app_nil_r. repeat split; [lia | assumption].
Qed.

Lemma stoi_range text v : Stoi.stoi text = Stoi.Ok v -> Int.fits32 v.
Proof.
  unfold Stoi.stoi. destruct (Stoi.sign _) as [neg body].
  destruct (Stoi.starts_with_digit body); [|discriminate].
  destruct (Int.fits32b _) eqn:F; [|discriminate].
  intros [= <-]. unfold Int.fits32b in F. apply andb_prop in F as [F1 F2].
  unfold Int.fits32. lia.
Qed.

Lemma filter_warnings l :
  (forall c, In c l -> exists t, c = TORCH_WARN t (32 * 1024)) ->
  List.filter is_hipMalloc l = [].
Proof.
  induction l as [|c l IH]; [reflexivity|]. intros H. cbn.
  destruct (H c (or_introl eq_refl)) as [t ->]. cbn.
  apply IH. intros c' Hc'. apply H. by right.
Qed.

Lemma fp8_mm_workspace V NDEBUG a b result sa sb sr algo pad w :
  wp (fp8_mm V NDEBUG a b result sa sb sr algo pad)
     (fun _ w' l =>
        w' = w /\
        (forall n, In (setMaxWorkspaceBytes n) l -> n = workspace_size w) /\
        (forall x p, In (initialize x p) l -> p = workspace w) /\
        (forall size, ~ In (hipMalloc size) l)) w.
Proof.
  unfold fp8_mm.
  wp_all; cbn [app]; (split; [reflexivity|]);
    (split; [|split];
     [ intros n Hin; each_call Hin; injection Hin as <-; reflexivity
     | intros x p Hin; each_call Hin; injection Hin as _ <-; reflexivity
     | intros size Hin; each_call Hin ]).
Qed.

(** C7, as the code has it.  [create_workspace] sets [workspace_size] to
    1024 times the integer [std::stoi] reads from HIPBLASLT_WORKSPACE_SIZE,
    in [size_t] arithmetic: exactly 1024 v for a value v >= 0, and the
    product reduced modulo 2^64 for a negative one; 32 MiB when the variable
    is unset, has no digits or is out of range.  Each call of
    [create_workspace] that finds a size other than 0 asks [hipMalloc] for
    that many bytes, whatever [workspace] already holds; when the
    allocation succeeds it is the only one of the call, the call returns
    and [workspace] holds the address the library stored.  An invocation of
    [fp8_mm] leaves the statics as they were, hands [workspace_size] to
    [setMaxWorkspaceBytes] and [workspace] to [initialize], and allocates
    nothing; so the same holds after any number of invocations. *)
Theorem workspace_set_once_then_only_read V NDEBUG w :
  (let r := create_workspace V w in
   let size := workspace_size (world r) in
   (forall text v,
      env_seen w = Some text -> Stoi.stoi text = Stoi.Ok v ->
      size = (1024 * v) mod 2 ^ 64 /\ (0 <= v -> size = 1024 * v)) /\
   (env_seen w = None \/
    (exists text, env_seen w = Some text /\
                  (Stoi.stoi text = Stoi.invalid_argument \/
                   Stoi.stoi text = Stoi.out_of_range)) ->
    size = 32 * 1024 * 1024) /\
   (forall n, In (hipMalloc n) (made r) -> n = size /\ 0 < size) /\
   (0 < size -> In (hipMalloc size) (made r)) /\
   (0 < size -> fst (v_hipMalloc V size) = hipSuccess ->
    outcome r = Done tt /\
    List.filter is_hipMalloc (made r) = [hipMalloc size] /\
    workspace (world r) = snd (v_hipMalloc V size))) /\
  (forall i : Invocation,
     let r := invoke NDEBUG i w in
     world r = w /\
     (forall n, In (setMaxWorkspaceBytes n) (made r) ->
        n = workspace_size w) /\
     (forall x p, In (initialize x p) (made r) -> p = workspace w) /\
     (forall size, ~ In (hipMalloc size) (made r))) /\
  (forall invocations : list Invocation,
     fold_left (fun w' i => world (invoke NDEBUG i w')) invocations w = w).
Proof.
  split; [|split].
  - intros r size. subst r size.
    pose proof (create_workspace_run V w) as H. unfold wp in H.
    cbn zeta in H.
    destruct H as (Hsize & _ & _ & Hcases).
    pose proof (warned_calls (env_seen w)) as Hwarn.
    rewrite Hsize.
    split; [|split; [|split; [|split]]].
    + intros text v He Hs. unfold size_read. rewrite He, Hs.
      split; [reflexivity|].
      intros Hv. apply stoi_range in Hs.
      unfold Int.fits32 in Hs. apply Z.mod_small. lia.
    + unfold size_read.
      intros [He|(text & He & [Hs|Hs])]; rewrite He, ?Hs; reflexivity.
    + intros n Hin.
      destruct Hcases
        as [(H0 & Hl & _)|[(Hpos & _ & Hl & _)|(Hpos & _ & Hl & _)]];
        rewrite Hl in Hin.
      * destruct (Hwarn _ Hin) as [t [=]].
      * apply in_app_or in Hin as [Hin|Hin].
        -- destruct (Hwarn _ Hin) as [t [=]].
        -- each_call Hin. injection Hin as <-. auto.
      * apply in_app_or in Hin as [Hin|Hin].
        -- destruct (Hwarn _ Hin) as [t [=]].
        -- each_call Hin; injection Hin as <-; auto.
    + intros Hpos.
      destruct Hcases as [(H0 & _)|[(_ & _ & Hl & _)|(_ & _ & Hl & _)]];
        [lia| |]; rewrite Hl; apply in_or_app; right; cbn; auto.
    + intros Hpos Hok.
      destruct Hcases as [(H0 & _)|[(_ & _ & Hl & Ho & Hws)|(_ & Hne & _)]];
        [lia| |contradiction].
      split; [exact Ho|]. split; [|exact Hws].
      rewrite Hl, List.filter_app, (filter_warnings _ Hwarn). reflexivity.
  - intros i r. subst r. unfold invoke. apply fp8_mm_workspace.
  - intros invocations. induction invocations as [|i rest IH]; cbn.
    + reflexivity.
    + unfold invoke at 2.
      destruct (fp8_mm_workspace (i_vendor i) NDEBUG (i_a i) (i_b i)
                  (i_result i) (i_scale_a i) (i_scale_b i)
                  (i_scale_result i) (i_algo_idx i) (i_padding_size i) w)
        as [-> _].
      exact IH.
Qed.

Lemma workspace_set_once_then_only_read_witness :
  let r := create_workspace Sample.vendor (start (Sample.setenv "64")) in
  workspace_size (world r) = 1024 * 64 /\
  outcome r = Done tt /\
  List.filter is_hipMalloc (made r) = [hipMalloc (1024 * 64)] /\
  workspace (world r) = 4096.
Proof.
  intros r.
  destruct (workspace_set_once_then_only_read Sample.vendor false
              (start (Sample.setenv "64")))
    as [(Hsize & _ & _ & _ & Hmalloc) _].
  destruct (Hsize "64" 64) as [_ Hexact].
  - reflexivity.
  - reflexivity.
  - assert (E : workspace_size (world r) = 1024 * 64)
      by (apply Hexact; lia).
    split; [exact E|]. rewrite <- E. apply Hmalloc.
    + fold r. rewrite E. lia.
    + reflexivity.
Defined.

(** C7 as stated fails in two ways.  For a negative value: "-1" is an
    integer for [std::stoi], and the size requested is 2^64 - 1024 bytes,
    not 1024 * (-1).  And the buffer is not allocated at most once: a
    second call of [create_workspace] allocates again, and [workspace]
    then holds the second address. *)
Lemma negative_size_wraps_and_second_call_allocates :
  (let r := create_workspace Sample.vendor (start (Sample.setenv "-1")) in
   Stoi.stoi "-1" = Stoi.Ok (-1) /\
   workspace_size (world r) = 2 ^ 64 - 1024 /\
   workspace_size (world r) <> 1024 * (-1) /\
   made r = [hipMalloc (2 ^ 64 - 1024)]) /\
  (let first := create_workspace Sample.vendor (start (Sample.setenv "64")) in
   let second := create_workspace Sample.vendor_later (world first) in
   (outcome first = Done tt /\ made first = [hipMalloc 65536] /\
    workspace (world first) = 4096) /\
   (outcome second = Done tt /\ made second = [hipMalloc 65536] /\
    workspace (world second) = 8192)).
Proof. vm_compute. repeat split; discriminate. Qed.

(** ** Errors of the library (lines 19-35 and the checked calls) *)

(** C8, on the code.  [CHECK_HIPBLASLT_ERROR(gemm.run(stream))] expands to
    a comparison and an [fprintf] that both contain the call, so a call
    that fails is made again, twice, before [exit].  Evaluated on the
    sample call with a library whose [Gemm::run] answers status 7 the first
    time: the launch is requested three times in the one invocation, and
    the process exits although the further two calls succeed. *)
Theorem failed_run_is_called_three_times :
  let V := Sample.vendor_run_fails in
  let r := fp8_mm V false Sample.a Sample.b Sample.result Sample.scale_a
             Sample.scale_b None 0 0 Sample.ready in
  (v_run V 22 = 7 /\
   fst (v_again V 1 (run 22)) = HIPBLAS_STATUS_SUCCESS /\
   fst (v_again V 2 (run 22)) = HIPBLAS_STATUS_SUCCESS) /\
  outcome r = Stopped (exit_failure CHECK_HIPBLASLT_ERROR 7) /\
  map entry (made r)
  = ["GemmPreference::setMaxWorkspaceBytes"; "Gemm::Gemm";
     "Gemm::getProblemTypes"; "Gemm::setProblem"; "Gemm::algoGetHeuristic";
     "getIndexFromAlgo"; "getAlgosFromIndex"; "Gemm::initialize";
     "Gemm::run"; "Gemm::run"; "Gemm::run"] /\
  List.filter is_run (made r) = [run 22; run 22; run 22].
Proof. vm_compute. repeat split. Qed.

(** ** The heuristic result (lines 184-193) *)

Lemma no_valid_solution_check_is_dead V NDEBUG a b result sa sb sr algo_idx pad w :
  wp (fp8_mm V NDEBUG a b result sa sb sr algo_idx pad)
     (fun o _ _ => o <> Stopped (c10_Error "No valid solution found!")) w.
Proof.
  unfold fp8_mm.
  wp_all; intros Ho; try discriminate Ho.
  all: try match goal with
       | H : outcome (infer_transpose _ _ _ _ _) = Stopped _ |- _ =>
           apply infer_transpose_stop in H as [(? & ? & ?)|(? & ?)];
           subst; discriminate
       end.
  all: match goal with
       | Hl : ?l !! 0%nat = Some _,
         Hc : negb (bool_decide (?l = [])) = false |- _ =>
           destruct l; [discriminate Hl | discriminate Hc]
       end.
Qed.

(** C10.  On the heuristic path element 0 of [heuristicResult] is read
    before the emptiness check.  In a run followed as far as its behaviour
    is defined, the "No valid solution found!" error is therefore never
    raised, whatever the call and the library's answers; and when the query
    succeeds with no solution, the run reaches the out-of-bounds read, right
    after the query, before the check. *)
Theorem heuristic_result_indexed_before_emptiness_check
    V NDEBUG a b result sa sb sr algo_idx pad w :
  let r := fp8_mm V NDEBUG a b result sa sb sr algo_idx pad w in
  outcome r <> Stopped (c10_Error "No valid solution found!") /\
  (forall ta tb status,
     wf a -> wf b -> Int.fits64 pad -> precondition a b result pad ->
     infer_transpose NDEBUG "a" (strides a) (sizes a) w
     = mkRun (Done (Some ta)) w [] ->
     infer_transpose NDEBUG "b" (strides b) (sizes b) w
     = mkRun (Done (Some tb)) w [] ->
     (forall p, v_setProblem V p = HIPBLAS_STATUS_SUCCESS) ->
     algo_idx = 0 ->
     v_algoGetHeuristic V 1 (workspace_size w) = (status, []) ->
     status = HIPBLAS_STATUS_SUCCESS ->
     outcome r = Stopped (undefined (out_of_bounds "heuristicResult" 0)) /\
     last (made r) = Some (algoGetHeuristic 1 (workspace_size w))).
Proof.
  intros r. subst r. split.
  - apply no_valid_solution_check_is_dead.
  - intros ta tb status Wa Wb Hp Hpre Ea Eb Hset -> Hheur ->.
    change (wp (fp8_mm V NDEBUG a b result sa sb sr 0 pad)
      (fun o _ l =>
         o = Stopped (undefined (out_of_bounds "heuristicResult" 0)) /\
         last l = Some (algoGetHeuristic 1 (workspace_size w))) w).
    destruct (precondition_checks _ _ _ _ Wa Wb Hp Hpre)
      as (n & k & kp & m & Sa & Sb & Hk & C3 & La & Lb & C1 & C2 & C4).
    unfold fp8_mm. rewrite Sa, Sb in *. repeat first [wp_known | wp_det].
    eapply wp_run; [exact Eb|]. cbn beta iota.
    repeat first [wp_known | wp_det].
    eapply wp_run; [exact Ea|]. cbn beta iota.
    repeat first [wp_known | wp_det | progress rewrite Hset
                 | progress rewrite Hheur | progress cbn beta iota].
    cbn [app]. split; reflexivity.
Qed.

Lemma heuristic_result_indexed_before_emptiness_check_witness :
  let r := fp8_mm Sample.vendor_no_solution false Sample.a Sample.b
             Sample.result Sample.scale_a Sample.scale_b None 0 0
             Sample.ready in
  outcome r = Stopped (undefined (out_of_bounds "heuristicResult" 0)) /\
  last (made r) = Some (algoGetHeuristic 1 65536).
Proof.
  intros r.
  destruct (heuristic_result_indexed_before_emptiness_check
              Sample.vendor_no_solution false Sample.a Sample.b
              Sample.result Sample.scale_a Sample.scale_b None 0 0
              Sample.ready) as [_ H].
  apply (H true false HIPBLAS_STATUS_SUCCESS).
  - apply wfb_wf. reflexivity.
  - apply wfb_wf. reflexivity.
  - unfold Int.fits64. lia.
  - exact sample_precondition.
  - exact sample_infer_a.
  - exact sample_infer_b.
  - reflexivity.
  - reflexivity.
  - reflexivity.
  - reflexivity.
Defined.

(** ** Choosing the algorithm (lines 184-200) *)

Lemma lookup_head {A : Type} (l : list A) x :
  l !! 0%nat = Some x -> exists rest, l = x :: rest.
Proof. destruct l; [discriminate|]. intros [= ->]. eauto. Qed.

Ltac in_list := cbn [In]; repeat first [left; reflexivity | right].

Lemma selection_run V NDEBUG a b result sa sb sr algo_idx pad w ta tb :
  wf a -> wf b -> Int.fits64 pad -> precondition a b result pad ->
  infer_transpose NDEBUG "a" (strides a) (sizes a) w
  = mkRun (Done (Some ta)) w [] ->
  infer_transpose NDEBUG "b" (strides b) (sizes b) w
  = mkRun (Done (Some tb)) w [] ->
  (forall p, v_setProblem V p = HIPBLAS_STATUS_SUCCESS) ->
  wp (fp8_mm V NDEBUG a b result sa sb sr algo_idx pad)
     (fun _ _ l =>
        ((exists n bytes, In (algoGetHeuristic n bytes) l) <->
         algo_idx = 0) /\
        (forall n bytes, In (algoGetHeuristic n bytes) l ->
           n = 1 /\ bytes = workspace_size w) /\
        (algo_idx <> 0 ->
         In (getAlgosFromIndex (v_handle V) [Int.int32 algo_idx]) l) /\
        (forall h idx, In (getAlgosFromIndex h idx) l ->
           h = v_handle V /\
           (algo_idx <> 0 /\ idx = [Int.int32 algo_idx] \/
            algo_idx = 0 /\
            exists st first others,
              v_algoGetHeuristic V 1 (workspace_size w)
              = (st, first :: others) /\
              In (getIndexFromAlgo (algo first)) l /\
              idx = [Int.int32 (v_getIndexFromAlgo V (algo first))])) /\
        (forall x p, In (initialize x p) l ->
           exists idx st chosen others,
             In (getAlgosFromIndex (v_handle V) idx) l /\
             v_getAlgosFromIndex V (v_handle V) idx
             = (st, chosen :: others) /\
             x = algo chosen)) w.
Proof.
  intros Wa Wb Hp Hpre Ea Eb Hset.
  destruct (precondition_checks _ _ _ _ Wa Wb Hp Hpre)
    as (n & k & kp & m & Sa & Sb & Hk & C3 & La & Lb & C1 & C2 & C4).
  unfold fp8_mm. rewrite Sa, Sb in *. repeat first [wp_known | wp_det].
  eapply wp_run; [exact Eb|]. cbn beta iota.
  repeat first [wp_known | wp_det].
  eapply wp_run; [exact Ea|]. cbn beta iota.
  repeat first [wp_known | wp_det | progress rewrite Hset].
  wp_all; cbn [app]; status_known;
    repeat match goal with
           | H : _ !! 0%nat = Some _ |- _ =>
               apply lookup_head in H as [? ->]
           end.
  all: split; [split; [intros (? & ? & Hin); each_call Hin; congruence
                      | intros ?; try contradiction; do 2 eexists; in_list]|].
  all: split; [intros ? ? Hin; each_call Hin; injection Hin as <- <-; auto|].
  all: split; [intros ?; try contradiction; in_list|].
  all: split;
    [ intros ? ? Hin; each_call Hin; injection Hin as <- <-;
      (split; [reflexivity|]);
      first [ left; split; [assumption | reflexivity]
            | right; (split; [assumption|]); do 3 eexists;
              (split; [first [eassumption | reflexivity]|]);
              (split; [in_list | reflexivity]) ]
    | intros ? ? Hin; each_call Hin; injection Hin as <- <-;
      do 4 eexists; (split; [in_list|]);
      (split; [first [eassumption | reflexivity] | reflexivity]) ].
Qed.


(** C4, as the code has it.  For a call that reaches the selection, the
    heuristic is queried exactly when [algo_idx] is 0, for one solution,
    and the index of its first answer is adopted.  Otherwise the index
    requested is [algo_idx] converted to the 32-bit [int] of the vendor
    interface: [algo_idx] itself when it fits, and then never 0.  Either
    way the algorithm initialised is the first one [getAlgosFromIndex]
    answers for the requested index. *)
Theorem algorithm_from_heuristic_or_narrowed_index
    V NDEBUG a b result sa sb sr algo_idx pad w ta tb :
  wf a -> wf b -> Int.fits64 pad -> precondition a b result pad ->
  infer_transpose NDEBUG "a" (strides a) (sizes a) w
  = mkRun (Done (Some ta)) w [] ->
  infer_transpose NDEBUG "b" (strides b) (sizes b) w
  = mkRun (Done (Some tb)) w [] ->
  (forall p, v_setProblem V p = HIPBLAS_STATUS_SUCCESS) ->
  let l := made (fp8_mm V NDEBUG a b result sa sb sr algo_idx pad w) in
  ((exists n bytes, In (algoGetHeuristic n bytes) l) <-> algo_idx = 0) /\
  (forall n bytes, In (algoGetHeuristic n bytes) l -> n = 1) /\
  (algo_idx <> 0 ->
   In (getAlgosFromIndex (v_handle V) [Int.int32 algo_idx]) l) /\
  (algo_idx <> 0 -> Int.fits32 algo_idx ->
   In (getAlgosFromIndex (v_handle V) [algo_idx]) l /\
   forall h idx, In (getAlgosFromIndex h idx) l -> idx = [algo_idx]) /\
  (forall h idx, In (getAlgosFromIndex h idx) l ->
     h = v_handle V /\
     (algo_idx <> 0 /\ idx = [Int.int32 algo_idx] \/
      algo_idx = 0 /\
      exists st first others,
        v_algoGetHeuristic V 1 (workspace_size w) = (st, first :: others) /\
        In (getIndexFromAlgo (algo first)) l /\
        idx = [Int.int32 (v_getIndexFromAlgo V (algo first))])) /\
  (forall x p, In (initialize x p) l ->
     exists idx st chosen others,
       In (getAlgosFromIndex (v_handle V) idx) l /\
       v_getAlgosFromIndex V (v_handle V) idx = (st, chosen :: others) /\
       x = algo chosen).
Proof.
  intros Wa Wb Hp Hpre Ea Eb Hset l. subst l.
  pose proof (selection_run V NDEBUG a b result sa sb sr algo_idx pad w
                ta tb Wa Wb Hp Hpre Ea Eb Hset) as H.
  unfold wp in H.
  destruct H as (Hheur & Hone & Hexplicit & Honly & Hinit).
  split; [exact Hheur|].
  split.
  { intros n bytes Hin. destruct (Hone n bytes Hin) as [H1 _]. exact H1. }
  split; [exact Hexplicit|].
  split; [|split; [exact Honly | exact Hinit]].
  intros Hne Hfit. pose proof (int32_fits algo_idx Hfit) as E. split.
  - rewrite E in Hexplicit. exact (Hexplicit Hne).
  - intros h idx Hin.
    destruct (Honly h idx Hin) as [_ [[_ ->]|[H0 _]]]; [|contradiction].
    rewrite E. reflexivity.
Qed.

Lemma algorithm_from_heuristic_or_narrowed_index_witness :
  let l := made (fp8_mm Sample.vendor false Sample.a Sample.b Sample.result
                   Sample.scale_a Sample.scale_b None 5 0 Sample.ready) in
  In (getAlgosFromIndex 11 [5]) l /\
  forall h idx, In (getAlgosFromIndex h idx) l -> idx = [5].
Proof.
  intros l.
  destruct (algorithm_from_heuristic_or_narrowed_index Sample.vendor false
              Sample.a Sample.b Sample.result Sample.scale_a Sample.scale_b
              None 5 0 Sample.ready true false)
    as (_ & _ & _ & H & _).
  - apply wfb_wf. reflexivity.
  - apply wfb_wf. reflexivity.
  - unfold Int.fits64. lia.
  - exact sample_precondition.
  - exact sample_infer_a.
  - exact sample_infer_b.
  - reflexivity.
  - apply H.
    + discriminate.
    + unfold Int.fits32. lia.
Defined.

(** C4 as stated fails for an [algo_idx] that does not fit the 32-bit
    index: 2^32 is not 0, so the heuristic is not queried, and the index
    requested explicitly is 0, not [algo_idx]. *)
Lemma wide_algo_idx_requests_index_zero :
  let l := made (fp8_mm Sample.vendor false Sample.a Sample.b Sample.result
                   Sample.scale_a Sample.scale_b None 4294967296 0
                   Sample.ready) in
  4294967296 <> 0 /\
  map entry l
  = ["GemmPreference::setMaxWorkspaceBytes"; "Gemm::Gemm";
     "Gemm::getProblemTypes"; "Gemm::setProblem"; "getAlgosFromIndex";
     "Gemm::initialize"; "Gemm::run"] /\
  In (getAlgosFromIndex 11 [0]) l /\
  ~ In (getAlgosFromIndex 11 [4294967296]) l.
Proof.
  vm_compute. split; [discriminate|]. split; [reflexivity|].
  split; [tauto|]. intros H.
  repeat (destruct H as [H|H]; [discriminate H|]). exact H.
Qed.
(** * Further properties *)

Lemma wp_eq {A : Type} (c : M A) w o w0 l0 :
  wp c (fun o' w' l' => o' = o /\ w' = w0 /\ l' = l0) w ->
  c w = mkRun o w0 l0.
Proof. unfold wp. intros (? & ? & ?). by apply run_eq. Qed.

(** ** Which check fails first (lines 77-88) *)

(** X1.  The four argument checks are made in a fixed order, and the error
    raised is the one of the first check that fails: operand types, then
    ranks, then the inner extents, then the result type. *)
Theorem argument_checks_report_first_failure
    V NDEBUG a b result sa sb sr algo_idx pad w :
  let r := fp8_mm V NDEBUG a b result sa sb sr algo_idx pad w in
  let types := dtype a = kFloat8_e4m3fnuz /\ dtype b = kFloat8_e4m3fnuz in
  let ranks := dim a = 2 /\ dim b = 2 in
  let extents :=
    sizes a !! 1%nat = (fun b0 => b0 - pad) <$> sizes b !! 0%nat in
  let output :=
    dtype result = kFloat8_e4m3fnuz \/ dtype result = kFloat16 \/
    dtype result = kBFloat16 in
  (~ types ->
   r = mkRun (Stopped (c10_Error
         "The input tensors type should be float8_e4m3fnuz.")) w []) /\
  (types -> ~ ranks ->
   r = mkRun (Stopped (c10_Error "Input tensors must be 2-D.")) w []) /\
  (wf a -> wf b -> Int.fits64 pad ->
   types -> ranks -> ~ extents ->
   r = mkRun (Stopped (c10_Error "a dim 1 must match b dim 0.")) w []) /\
  (wf a -> wf b -> Int.fits64 pad ->
   types -> ranks -> extents -> ~ output ->
   r = mkRun (Stopped (c10_Error
         "Only float16, bfloat16 or float8_e4m3fnuz are supported as the output dtype."))
       w []).
Proof.
  intros r types ranks extents output. subst r types ranks extents output.
  assert (T : forall x y : ScalarType, x = y -> bool_decide (x = y) = true)
    by (intros; by apply bool_decide_eq_true_2).
  assert (F : forall x y : ScalarType, x <> y -> bool_decide (x = y) = false)
    by (intros; by apply bool_decide_eq_false_2).
  split; [|split; [|split]].
  - intros Hnot.
    assert (C : bool_decide (dtype a = kFloat8_e4m3fnuz) &&
                bool_decide (dtype b = kFloat8_e4m3fnuz) = false).
    { destruct (bool_decide_reflect (dtype a = kFloat8_e4m3fnuz));
        destruct (bool_decide_reflect (dtype b = kFloat8_e4m3fnuz));
        try reflexivity. tauto. }
    apply wp_eq. unfold fp8_mm. repeat first [wp_known | wp_det]. auto.
  - intros [Ta Tb] Hnot.
    assert (C1 : bool_decide (dtype a = kFloat8_e4m3fnuz) &&
                 bool_decide (dtype b = kFloat8_e4m3fnuz) = true)
      by (rewrite !T by assumption; reflexivity).
    assert (C2 : (dim a =? 2) && (dim b =? 2) = false).
    { destruct (Z.eqb_spec (dim a) 2), (Z.eqb_spec (dim b) 2);
        try reflexivity. tauto. }
    apply wp_eq. unfold fp8_mm. repeat first [wp_known | wp_det]. auto.
  - intros Wa Wb Hp [Ta Tb] [Da Db] Hnot.
    assert (C1 : bool_decide (dtype a = kFloat8_e4m3fnuz) &&
                 bool_decide (dtype b = kFloat8_e4m3fnuz) = true)
      by (rewrite !T by assumption; reflexivity).
    assert (C2 : (dim a =? 2) && (dim b =? 2) = true)
      by (rewrite Da, Db; reflexivity).
    destruct (wf_2d a Wa Da) as (n & k & Sa & Rn & Rk & La).
    destruct (wf_2d b Wb Db) as (kp & m & Sb & Rkp & Rm & Lb).
    assert (C3 : (k =? Int.sub64 kp pad) = false).
    { rewrite sub64_compare by assumption. apply Z.eqb_neq. intros ->.
      apply Hnot. rewrite Sa, Sb. reflexivity. }
    apply wp_eq. unfold fp8_mm. rewrite Sa, Sb.
    repeat first [wp_known | wp_det]. auto.
  - intros Wa Wb Hp [Ta Tb] [Da Db] He Hnot.
    assert (C1 : bool_decide (dtype a = kFloat8_e4m3fnuz) &&
                 bool_decide (dtype b = kFloat8_e4m3fnuz) = true)
      by (rewrite !T by assumption; reflexivity).
    assert (C2 : (dim a =? 2) && (dim b =? 2) = true)
      by (rewrite Da, Db; reflexivity).
    destruct (wf_2d a Wa Da) as (n & k & Sa & Rn & Rk & La).
    destruct (wf_2d b Wb Db) as (kp & m & Sb & Rkp & Rm & Lb).
    assert (C3 : (k =? Int.sub64 kp pad) = true).
    { rewrite sub64_compare by assumption. apply Z.eqb_eq.
      rewrite Sa, Sb in He. cbn in He. by injection He. }
    assert (C4 : bool_decide (dtype result = kFloat8_e4m3fnuz) ||
                 bool_decide (dtype result = kFloat16) ||
                 bool_decide (dtype result = kBFloat16) = false).
    { rewrite !F by tauto. reflexivity. }
    apply wp_eq. unfold fp8_mm. rewrite Sa, Sb.
    repeat first [wp_known | wp_det]. auto.
Qed.

Lemma argument_checks_report_first_failure_witness :
  fp8_mm Sample.vendor false Sample.a_float
    (mkTensor kFloat8_e4m3fnuz [3] [1] 200 []) Sample.result Sample.scale_a
    Sample.scale_b None 0 0 Sample.ready
  = mkRun (Stopped (c10_Error
      "The input tensors type should be float8_e4m3fnuz.")) Sample.ready [] /\
  fp8_mm Sample.vendor false Sample.a
    (mkTensor kFloat8_e4m3fnuz [3] [1] 200 []) Sample.scale_a Sample.scale_a
    Sample.scale_b None 0 0 Sample.ready
  = mkRun (Stopped (c10_Error "Input tensors must be 2-D.")) Sample.ready [].
Proof.
  split.
  - apply (proj1 (argument_checks_report_first_failure Sample.vendor false
             Sample.a_float (mkTensor kFloat8_e4m3fnuz [3] [1] 200 [])
             Sample.result Sample.scale_a Sample.scale_b None 0 0
             Sample.ready)).
    intros [H _]. discriminate H.
  - apply (proj1 (proj2 (argument_checks_report_first_failure Sample.vendor
             false Sample.a (mkTensor kFloat8_e4m3fnuz [3] [1] 200 [])
             Sample.scale_a Sample.scale_a Sample.scale_b None 0 0
             Sample.ready))).
    + split; reflexivity.
    + intros [_ H]. discriminate H.
Defined.

(** ** Exceptions and the index lookup (lines 194-200) *)

Ltac from_infer_stop :=
  match goal with
  | H : outcome (infer_transpose _ _ _ _ _) = Stopped _ |- _ =>
      apply infer_transpose_stop in H as [(? & ? & ?)|(? & ?)]; subst
  end.

Ltac lookup_answer :=
  repeat match goal with
         | H : v_getAlgosFromIndex _ _ _ = _ |- _ => rewrite H; clear H
         end;
  cbn [fst snd].

Lemma fp8_mm_exceptions V NDEBUG a b result sa sb sr algo_idx pad w :
  wp (fp8_mm V NDEBUG a b result sa sb sr algo_idx pad)
     (fun o _ l =>
        (forall msg, o = Stopped (c10_Error msg) ->
           In msg fp8_mm_messages /\ l = [] \/
           exists h idx,
             last l = Some (getAlgosFromIndex h idx) /\
             fst (v_getAlgosFromIndex V h idx) <> HIPBLAS_STATUS_SUCCESS /\
             msg = lookup_error V (fst (v_getAlgosFromIndex V h idx))) /\
        (forall h idx, In (getAlgosFromIndex h idx) l ->
           last l = Some (getAlgosFromIndex h idx) ->
           (fst (v_getAlgosFromIndex V h idx) <> HIPBLAS_STATUS_SUCCESS /\
            o = Stopped (c10_Error
                  (lookup_error V (fst (v_getAlgosFromIndex V h idx))))) \/
           (v_getAlgosFromIndex V h idx = (HIPBLAS_STATUS_SUCCESS, []) /\
            o = Stopped (undefined (out_of_bounds "tmpAlgo" 0)))) /\
        (forall h idx, In (getAlgosFromIndex h idx) l ->
           (exists x p, In (initialize x p) l) <->
           exists first others,
             v_getAlgosFromIndex V h idx
             = (HIPBLAS_STATUS_SUCCESS, first :: others))) w.
Proof.
  unfold fp8_mm.
  wp_all; cbn [app]; status_known;
    repeat match goal with
           | H : _ !! 0%nat = Some _ |- _ => apply lookup_head in H as [? ->]
           | H : _ !! 0%nat = None |- _ =>
               apply lookup_ge_None_1 in H; apply Nat.le_0_r in H;
               apply nil_length_inv in H; subst
           end.
  all: (split; [|split];
    [ intros ? Hm;
      first [ discriminate Hm
            | match goal with
              | H : negb (bool_decide (_ :: _ = [])) = false |- _ =>
                  discriminate H
              end
            | injection Hm as Hm; from_infer_stop; discriminate Hm
            | injection Hm as <-;
              first [ left; split;
                      [solve [unfold fp8_mm_messages; in_list] | reflexivity]
                    | right; do 2 eexists; (split; [reflexivity|]);
                      lookup_answer; split; [assumption | reflexivity] ] ]
    | intros ? ? Hin Hlast; each_call Hin; injection Hin as <- <-;
      first [ cbn in Hlast; discriminate Hlast
            | lookup_answer;
              first [ left; split; [assumption | reflexivity]
                    | right; subst; split; reflexivity ] ]
    | intros ? ? Hin; each_call Hin; injection Hin as <- <-;
      lookup_answer;
      (split;
       [ intros (? & ? & Hi); each_call Hi; subst; do 2 eexists; reflexivity
       | intros (? & ? & E);
         first [ solve [do 2 eexists; in_list]
               | congruence ] ]) ]).
Qed.

(** X2.  If the heuristic, when it is asked, offers at least one solution,
    the only exceptions [fp8_mm] raises are the four of its argument
    checks, before any call is made, and the one of the status check on
    [getAlgosFromIndex], right after that call failed, with the message
    that names the status. *)
Theorem fp8_mm_raises_only_its_five_errors
    V NDEBUG a b result sa sb sr algo_idx pad w msg :
  let r := fp8_mm V NDEBUG a b result sa sb sr algo_idx pad w in
  (algo_idx = 0 -> snd (v_algoGetHeuristic V 1 (workspace_size w)) <> []) ->
  outcome r = Stopped (c10_Error msg) ->
  In msg fp8_mm_messages /\ made r = [] \/
  exists h idx,
    last (made r) = Some (getAlgosFromIndex h idx) /\
    fst (v_getAlgosFromIndex V h idx) <> HIPBLAS_STATUS_SUCCESS /\
    msg = "CUDA error: "
          +:+ v_cublasGetErrorEnum V (fst (v_getAlgosFromIndex V h idx))
          +:+ " when calling `hipblaslt_ext::getAlgosFromIndex(handle, algoIndex, tmpAlgo)`".
Proof.
  intros r _. subst r.
  destruct (fp8_mm_exceptions V NDEBUG a b result sa sb sr algo_idx pad w)
    as [H _].
  apply H.
Qed.

Lemma fp8_mm_raises_only_its_five_errors_witness :
  let V := Sample.vendor_lookup_fails in
  let r := fp8_mm V false Sample.a Sample.b Sample.result Sample.scale_a
             Sample.scale_b None 0 0 Sample.ready in
  In "CUDA error: <unknown> when calling `hipblaslt_ext::getAlgosFromIndex(handle, algoIndex, tmpAlgo)`"
     fp8_mm_messages /\ made r = [] \/
  exists h idx,
    last (made r) = Some (getAlgosFromIndex h idx) /\
    fst (v_getAlgosFromIndex V h idx) <> HIPBLAS_STATUS_SUCCESS /\
    "CUDA error: <unknown> when calling `hipblaslt_ext::getAlgosFromIndex(handle, algoIndex, tmpAlgo)`"
    = "CUDA error: "
      +:+ v_cublasGetErrorEnum V (fst (v_getAlgosFromIndex V h idx))
      +:+ " when calling `hipblaslt_ext::getAlgosFromIndex(handle, algoIndex, tmpAlgo)`".
Proof.
  intros V r.
  apply (fp8_mm_raises_only_its_five_errors V false Sample.a Sample.b
           Sample.result Sample.scale_a Sample.scale_b None 0 0
           Sample.ready).
  - intros _. vm_compute. discriminate.
  - reflexivity.
Defined.

(** X3.  [getAlgosFromIndex] is the one library call whose failure is
    raised to the caller instead of ending the process; and its answer is
    indexed unguarded: when it is the last call made, either it failed and
    [fp8_mm] threw, with a message that names the status, or it succeeded
    with no algorithm and element 0 of the empty vector was read.
    [Gemm::initialize] is reached exactly when it answers success with at
    least one algorithm. *)
Theorem index_lookup_failure_is_thrown_and_empty_answer_is_read
    V NDEBUG a b result sa sb sr algo_idx pad w h idx :
  let r := fp8_mm V NDEBUG a b result sa sb sr algo_idx pad w in
  In (getAlgosFromIndex h idx) (made r) ->
  (last (made r) = Some (getAlgosFromIndex h idx) ->
   (fst (v_getAlgosFromIndex V h idx) <> HIPBLAS_STATUS_SUCCESS /\
    outcome r = Stopped (c10_Error
      ("CUDA error: "
       +:+ v_cublasGetErrorEnum V (fst (v_getAlgosFromIndex V h idx))
       +:+ " when calling `hipblaslt_ext::getAlgosFromIndex(handle, algoIndex, tmpAlgo)`"))) \/
   (v_getAlgosFromIndex V h idx = (HIPBLAS_STATUS_SUCCESS, []) /\
    outcome r = Stopped (undefined (out_of_bounds "tmpAlgo" 0)))) /\
  ((exists x p, In (initialize x p) (made r)) <->
   exists first others,
     v_getAlgosFromIndex V h idx = (HIPBLAS_STATUS_SUCCESS, first :: others)).
Proof.
  intros r Hin. subst r.
  destruct (fp8_mm_exceptions V NDEBUG a b result sa sb sr algo_idx pad w)
    as (_ & H2 & H3).
  split.
  - intros Hlast. exact (H2 h idx Hin Hlast).
  - exact (H3 h idx Hin).
Qed.

Lemma index_lookup_failure_is_thrown_and_empty_answer_is_read_witness :
  let r := fp8_mm Sample.vendor_lookup_empty false Sample.a Sample.b
             Sample.result Sample.scale_a Sample.scale_b None 5 0
             Sample.ready in
  outcome r = Stopped (undefined (out_of_bounds "tmpAlgo" 0)) /\
  ~ exists x p, In (initialize x p) (made r).
Proof.
  intros r.
  destruct (index_lookup_failure_is_thrown_and_empty_answer_is_read
              Sample.vendor_lookup_empty false
              Sample.a Sample.b Sample.result Sample.scale_a Sample.scale_b
              None 5 0 Sample.ready 11 [5]) as [H1 H2].
  - vm_compute. tauto.
  - split.
    + destruct H1 as [[Hf _]|[_ Ho]]; [reflexivity | | exact Ho].
      exfalso. apply Hf. reflexivity.
    + intros Hi. apply H2 in Hi as (first & others & E). discriminate E.
Defined.

(** ** The calls of one invocation, in order (lines 147-201) *)

Lemma out_type_cases d :
  bool_decide (d = kFloat8_e4m3fnuz) || bool_decide (d = kFloat16) ||
  bool_decide (d = kBFloat16) = true ->
  let t := if bool_decide (d = kFloat8_e4m3fnuz) then HIP_R_8F_E4M3_FNUZ
           else if bool_decide (d = kBFloat16) then HIP_R_16BF
           else HIP_R_16F in
  d = kFloat8_e4m3fnuz /\ t = HIP_R_8F_E4M3_FNUZ \/
  d = kBFloat16 /\ t = HIP_R_16BF \/
  d = kFloat16 /\ t = HIP_R_16F.
Proof. destruct d; cbn; intros H; try discriminate H; auto. Qed.

(** The calls that were made, seen as the first evaluations followed, when
    a check failed, by the two further evaluations of the failed call. *)
Ltac split_trace :=
  lazymatch goal with
  | |- exists _, _ /\ (?l = _ \/ _) =>
      first
        [ exists l; split;
          [ cbn [map entry app]; eexists; reflexivity | left; reflexivity ]
        | exists (take (length l - 2) l); cbn [length Nat.sub take firstn];
          split;
          [ cbn [map entry app]; eexists; reflexivity
          | right; do 3 eexists;
            (split; [reflexivity|]); (split; [reflexivity|]);
            repeat match goal with
                   | H : v_algoGetHeuristic _ _ _ = _ |- _ => rewrite H
                   end;
            cbn [success fst]; status_known;
            (split; [assumption | split; reflexivity]) ] ]
  end.

Lemma fp8_mm_calls V NDEBUG a b result sa sb sr algo_idx pad w :
  wp (fp8_mm V NDEBUG a b result sa sb sr algo_idx pad)
     (fun o _ l =>
        (exists evaluated,
           map entry evaluated `prefix_of` call_order algo_idx /\
           (l = evaluated \/
            exists c m st,
              last evaluated = Some c /\ checked V c = Some (m, st) /\
              st <> success m /\ o = Stopped (exit_failure m st) /\
              l = (evaluated ++ [c; c])%list)) /\
        (o = Done tt <->
         In (run (v_stream V)) l /\
         v_run V (v_stream V) = HIPBLAS_STATUS_SUCCESS) /\
        (forall s, In (run s) l ->
           s = v_stream V /\ last l = Some (run s)) /\
        (forall h pt, In (Gemm h pt) l ->
           h = v_handle V /\
           (type_a pt = HIP_R_8F_E4M3_FNUZ /\
            type_b pt = HIP_R_8F_E4M3_FNUZ /\
            type_compute pt = HIPBLAS_COMPUTE_32F /\
            type_d pt = type_c pt) /\
           (dtype result = kFloat8_e4m3fnuz /\
            type_c pt = HIP_R_8F_E4M3_FNUZ \/
            dtype result = kBFloat16 /\ type_c pt = HIP_R_16BF \/
            dtype result = kFloat16 /\ type_c pt = HIP_R_16F) /\
           (forall args, In (setProblem args) l ->
              p_problemtype args = pt /\
              p_epilogue args = HIPBLASLT_EPILOGUE_DEFAULT /\
              in_alpha (p_inputs args) = f_1_0 /\
              in_beta (p_inputs args) = f_0_0))) w.
Proof.
  unfold fp8_mm.
  wp_all; cbn [app];
    (split;
     [ unfold call_order;
       repeat match goal with
              | H : (algo_idx =? 0) = _ |- _ => rewrite H
              | H : v_algoGetHeuristic _ _ _ = _ |- _ => rewrite H
              end;
       split_trace |]);
    status_known;
    (split; [|split];
     [ split;
       [ intros Ho; first [discriminate Ho | split; [solve [in_list] | assumption]]
       | intros [Hin Hs]; first [reflexivity | each_call Hin | congruence] ]
     | intros ? Hin; each_call Hin; injection Hin as <-; split; reflexivity
     | intros ? ? Hin; each_call Hin; injection Hin as <- <-;
       (split; [reflexivity|]); (split; [auto|]);
       (split;
        [ match goal with
          | H : bool_decide (dtype result = _) || _ || _ = true |- _ =>
              exact (out_type_cases _ H)
          end
        | intros ? Hin; each_call Hin; injection Hin as <-; auto ]) ]).
Qed.

(** X4.  Whatever the arguments and the library's answers, the calls of one
    invocation follow the program order: workspace limit, constructor,
    problem types, problem, then the heuristic and its index when
    [algo_idx] is 0, then index lookup, initialisation and launch.  The
    trace is an initial part of that order; when a checked call fails it is
    followed by that same call two more times, and the process exits. *)
Theorem calls_follow_program_order
    V NDEBUG a b result sa sb sr algo_idx pad w :
  let r := fp8_mm V NDEBUG a b result sa sb sr algo_idx pad w in
  exists evaluated,
    map entry evaluated `prefix_of` call_order algo_idx /\
    (made r = evaluated \/
     exists c m st,
       last evaluated = Some c /\ checked V c = Some (m, st) /\
       st <> success m /\ outcome r = Stopped (exit_failure m st) /\
       made r = (evaluated ++ [c; c])%list).
Proof.
  intros r. subst r.
  destruct (fp8_mm_calls V NDEBUG a b result sa sb sr algo_idx pad w)
    as [H _].
  exact H.
Qed.

(** X5.  [fp8_mm] returns normally exactly when it launched the kernel and
    the launch, the first time it was called, reported success; the launch
    is only ever requested on the current stream, and no other call
    follows it. *)
Theorem returns_exactly_when_kernel_launched
    V NDEBUG a b result sa sb sr algo_idx pad w :
  let r := fp8_mm V NDEBUG a b result sa sb sr algo_idx pad w in
  (outcome r = Done tt <->
   In (run (v_stream V)) (made r) /\
   v_run V (v_stream V) = HIPBLAS_STATUS_SUCCESS) /\
  (forall s, In (run s) (made r) ->
     s = v_stream V /\ last (made r) = Some (run s)).
Proof.
  intros r. subst r.
  destruct (fp8_mm_calls V NDEBUG a b result sa sb sr algo_idx pad w)
    as (_ & H1 & H2 & _).
  split; assumption.
Qed.

Lemma returns_exactly_when_kernel_launched_witness :
  let r := fp8_mm Sample.vendor false Sample.a Sample.b Sample.result
             Sample.scale_a Sample.scale_b None 0 0 Sample.ready in
  In (run 22) (made r) /\ last (made r) = Some (run 22).
Proof.
  intros r.
  destruct (returns_exactly_when_kernel_launched Sample.vendor false
              Sample.a Sample.b Sample.result Sample.scale_a Sample.scale_b
              None 0 0 Sample.ready) as [H1 H2].
  assert (Hin : In (run 22) (made r)) by (apply H1; reflexivity).
  split; [exact Hin|]. exact (proj2 (H2 22 Hin)).
Defined.

(** X6.  The matmul object is always built on the current handle for FP8
    operands with 32-bit float accumulation, with C and D of the library
    type of the result tensor: FP8 for float8_e4m3fnuz, BF16 for bfloat16,
    FP16 for float16.  The problem set afterwards carries those same types,
    the default epilogue, alpha = 1 and beta = 0. *)
Theorem gemm_types_follow_result_dtype
    V NDEBUG a b result sa sb sr algo_idx pad w h pt :
  let r := fp8_mm V NDEBUG a b result sa sb sr algo_idx pad w in
  In (Gemm h pt) (made r) ->
  h = v_handle V /\
  (type_a pt = HIP_R_8F_E4M3_FNUZ /\ type_b pt = HIP_R_8F_E4M3_FNUZ /\
   type_compute pt = HIPBLAS_COMPUTE_32F /\ type_d pt = type_c pt) /\
  (dtype result = kFloat8_e4m3fnuz /\ type_c pt = HIP_R_8F_E4M3_FNUZ \/
   dtype result = kBFloat16 /\ type_c pt = HIP_R_16BF \/
   dtype result = kFloat16 /\ type_c pt = HIP_R_16F) /\
  (forall args, In (setProblem args) (made r) ->
     p_problemtype args = pt /\
     p_epilogue args = HIPBLASLT_EPILOGUE_DEFAULT /\
     in_alpha (p_inputs args) = f_1_0 /\
     in_beta (p_inputs args) = f_0_0).
Proof.
  intros r Hin. subst r.
  destruct (fp8_mm_calls V NDEBUG a b result sa sb sr algo_idx pad w)
    as (_ & _ & _ & H).
  exact (H h pt Hin).
Qed.

Lemma gemm_types_follow_result_dtype_witness :
  let r := fp8_mm Sample.vendor false Sample.a Sample.b Sample.result
             Sample.scale_a Sample.scale_b None 0 0 Sample.ready in
  exists pt, In (Gemm 11 pt) (made r) /\
             type_c pt = HIP_R_16F /\ type_d pt = HIP_R_16F.
Proof.
  intros r.
  assert (Hin : In (Gemm 11 (mkProblemType HIPBLAS_OP_T HIPBLAS_OP_N
                      HIP_R_8F_E4M3_FNUZ HIP_R_8F_E4M3_FNUZ HIP_R_16F
                      HIP_R_16F HIPBLAS_COMPUTE_32F)) (made r))
    by (vm_compute; tauto).
  destruct (gemm_types_follow_result_dtype Sample.vendor false Sample.a
              Sample.b Sample.result Sample.scale_a Sample.scale_b None 0 0
              Sample.ready 11 _ Hin) as (_ & (_ & _ & _ & Hd) & _ & _).
  eexists. split; [exact Hin|]. split; [reflexivity | exact Hd].
Defined.

(** ** Failing checks (lines 19-35) *)

(** The answers to the further evaluations are not looked at: a check runs
    the same whatever they are, up to what [hipMalloc] leaves in
    [workspace] before the exit. *)
Lemma check_hipblaslt_error_again V again c first w :
  check_hipblaslt_error (evaluate (with_again V again) c first) w
  = check_hipblaslt_error (evaluate V c first) w.
Proof.
  unfold check_hipblaslt_error, evaluate, bind, call, ret, stop, after.
  cbn [answer fst]. destruct (first =? HIPBLAS_STATUS_SUCCESS); reflexivity.
Qed.

Ltac same_run :=
  repeat first
    [ apply check_hipblaslt_error_again
    | apply bind_cong; [|intros]
    | lazymatch goal with
      | |- (if ?c then _ else _) _ = _ => destruct c
      | |- (match ?x with _ => _ end) _ = _ => destruct x
      end
    | reflexivity ].

Lemma fp8_mm_again V again NDEBUG a b result sa sb sr algo_idx pad w :
  fp8_mm (with_again V again) NDEBUG a b result sa sb sr algo_idx pad w
  = fp8_mm V NDEBUG a b result sa sb sr algo_idx pad w.
Proof.
  unfold fp8_mm.
  cbn [with_again v_handle v_stream v_setProblem v_algoGetHeuristic
       v_getIndexFromAlgo v_getAlgosFromIndex v_initialize v_run].
  same_run.
Qed.

Lemma fp8_mm_checked_calls V NDEBUG a b result sa sb sr algo_idx pad w :
  wp (fp8_mm V NDEBUG a b result sa sb sr algo_idx pad)
     (fun o _ l =>
        (forall c m st,
           In c l -> checked V c = Some (m, st) -> st <> success m ->
           o = Stopped (exit_failure m st) /\ last l = Some c) /\
        (o = Done tt -> map entry l = call_order algo_idx)) w.
Proof.
  unfold fp8_mm.
  wp_all; cbn [app];
    (split;
     [ intros c m st Hin Hc Hne; each_call Hin; subst c; cbn in Hc;
       try discriminate Hc;
       injection Hc as <- <-; cbn [success] in Hne;
       repeat match goal with
              | H : v_algoGetHeuristic _ _ _ = _ |- _ =>
                  rewrite H in *; clear H
              end;
       cbn [fst] in *; status_known;
       first [contradiction | congruence | (split; reflexivity)]
     | intros Ho;
       first [ discriminate Ho
             | unfold call_order;
               repeat match goal with
                      | H : (algo_idx =? 0) = _ |- _ => rewrite H
                      end; reflexivity ] ]).
Qed.

(** X20.  Neither function recovers from a failing check.  When the first
    evaluation of a call checked by [CHECK_HIP_ERROR] or
    [CHECK_HIPBLASLT_ERROR] answers anything but success, the process
    exits, and that call is the last one made; what the library answers to
    the further evaluations changes neither the outcome nor the calls.  A
    run of [fp8_mm] that returns has called each entry point of the program
    order once. *)
Theorem failed_check_exits_whatever_is_answered_again
    V NDEBUG a b result sa sb sr algo_idx pad w :
  (let r := fp8_mm V NDEBUG a b result sa sb sr algo_idx pad w in
   (forall c m st,
      In c (made r) -> checked V c = Some (m, st) -> st <> success m ->
      outcome r = Stopped (exit_failure m st) /\ last (made r) = Some c) /\
   (outcome r = Done tt -> map entry (made r) = call_order algo_idx) /\
   (forall again,
      fp8_mm (with_again V again) NDEBUG a b result sa sb sr algo_idx pad w
      = r)) /\
  (let r := create_workspace V w in
   (forall c m st,
      In c (made r) -> checked V c = Some (m, st) -> st <> success m ->
      outcome r = Stopped (exit_failure m st) /\ last (made r) = Some c) /\
   (forall again,
      let r' := create_workspace (with_again V again) w in
      outcome r' = outcome r /\ made r' = made r /\
      workspace_size (world r') = workspace_size (world r))).
Proof.
  split.
  - intros r. subst r.
    destruct (fp8_mm_checked_calls V NDEBUG a b result sa sb sr algo_idx pad
                w) as [H1 H2].
    split; [exact H1|]. split; [exact H2|].
    intros again. apply fp8_mm_again.
  - intros r. subst r.
    pose proof (create_workspace_run V w) as H. unfold wp in H.
    cbn zeta in H. destruct H as (Hsize & _ & _ & Hcases).
    pose proof (warned_calls (env_seen w)) as Hwarn.
    split.
    + intros c m st Hin Hc Hne.
      assert (Hm : c = hipMalloc (size_read (env_seen w))).
      { destruct Hcases
          as [(_ & Hl & _)|[(_ & _ & Hl & _)|(_ & _ & Hl & _)]];
          rewrite Hl in Hin;
          [ | apply in_app_or in Hin as [Hin|Hin]
            | apply in_app_or in Hin as [Hin|Hin] ];
          try (destruct (Hwarn _ Hin) as [t ->]; discriminate Hc);
          each_call Hin; auto. }
      subst c. cbn in Hc. injection Hc as <- <-. cbn [success] in Hne.
      destruct Hcases
        as [(H0 & Hl & _)|[(_ & Hok & _)|(_ & _ & Hl & Ho & _)]].
      * exfalso. rewrite Hl in Hin. destruct (Hwarn _ Hin) as [t [=]].
      * contradiction.
      * split; [exact Ho|]. rewrite Hl.
        change [hipMalloc (size_read (env_seen w));
                hipMalloc (size_read (env_seen w));
                hipMalloc (size_read (env_seen w))]
          with ([hipMalloc (size_read (env_seen w));
                 hipMalloc (size_read (env_seen w))]
                ++ [hipMalloc (size_read (env_seen w))])%list.
        rewrite app_assoc. apply last_snoc.
    + intros again r'. subst r'.
      pose proof (create_workspace_run (with_again V again) w) as H'.
      unfold wp in H'. cbn zeta in H'.
      destruct H' as (Hsize' & _ & _ & Hcases').
      cbn [with_again v_hipMalloc] in Hcases'.
      rewrite Hsize, Hsize'.
      destruct Hcases
        as [(H0 & Hl & Ho & _)|[(Hp & Hok & Hl & Ho & _)
                               |(Hp & Hne & Hl & Ho & _)]];
      destruct Hcases'
        as [(H0' & Hl' & Ho' & _)|[(Hp' & Hok' & Hl' & Ho' & _)
                                  |(Hp' & Hne' & Hl' & Ho' & _)]];
      try lia; try contradiction;
      rewrite Hl, Hl', Ho, Ho'; auto.
Qed.

Lemma failed_check_exits_whatever_is_answered_again_witness :
  let r := fp8_mm Sample.vendor_run_fails false Sample.a Sample.b
             Sample.result Sample.scale_a Sample.scale_b None 0 0
             Sample.ready in
  outcome r = Stopped (exit_failure CHECK_HIPBLASLT_ERROR 7) /\
  last (made r) = Some (run 22).
Proof.
  intros r.
  destruct (failed_check_exits_whatever_is_answered_again
              Sample.vendor_run_fails false
              Sample.a Sample.b Sample.result Sample.scale_a Sample.scale_b
              None 0 0 Sample.ready) as [(Hexit & _) _].
  apply (Hexit (run 22) CHECK_HIPBLASLT_ERROR 7).
  - vm_compute. tauto.
  - reflexivity.
  - cbn. discriminate.
Defined.

(** ** Indexing the tensor metadata (lines 72-136) *)

Lemma infer_transpose_2d_stop NDEBUG name s0 s1 z0 z1 w s :
  outcome (infer_transpose NDEBUG name [s0; s1] [z0; z1] w) = Stopped s ->
  exists msg, s = assert_fail msg.
Proof.
  rewrite infer_transpose_2d.
  destruct (_ && _); [discriminate|].
  destruct (_ && _); [discriminate|].
  destruct NDEBUG; [discriminate|]. cbn. intros [= <-]. eauto.
Qed.

(** X7.  On well-formed tensors no size or stride is ever read out of
    bounds: the rank check comes before the first index.  The only vectors
    [fp8_mm] can index out of bounds are the two the library fills in, at
    element 0. *)
Theorem only_library_vectors_are_indexed_unguarded
    V NDEBUG a b result sa sb sr algo_idx pad w c i :
  wf a -> wf b ->
  outcome (fp8_mm V NDEBUG a b result sa sb sr algo_idx pad w)
  = Stopped (undefined (out_of_bounds c i)) ->
  (c = "heuristicResult" \/ c = "tmpAlgo") /\ i = 0%nat.
Proof.
  intros Wa Wb.
  change (wp (fp8_mm V NDEBUG a b result sa sb sr algo_idx pad)
    (fun o _ _ => o = Stopped (undefined (out_of_bounds c i)) ->
                  (c = "heuristicResult" \/ c = "tmpAlgo") /\ i = 0%nat) w).
  unfold fp8_mm.
  repeat wp_det. wp_branch; [|wp_det; discriminate].
  repeat wp_det. wp_branch; [|wp_det; discriminate].
  assert (D := Heqb1). apply andb_prop in D as [Da Db].
  apply Z.eqb_eq in Da. apply Z.eqb_eq in Db.
  destruct (wf_2d a Wa Da) as (n & k & Sa & _ & _ & La).
  destruct (wf_2d b Wb Db) as (kp & m & Sb & _ & _ & Lb).
  destruct (strides a) as [|a0 [|a1 [|? ?]]]; try discriminate La.
  destruct (strides b) as [|b0 [|b1 [|? ?]]]; try discriminate Lb.
  rewrite Sa, Sb.
  wp_all; intros Ho; try discriminate Ho.
  all: try (injection Ho as <- <-; auto).
  all: injection Ho as Ho;
    match goal with
    | H : outcome (infer_transpose _ _ _ _ _) = Stopped _ |- _ =>
        apply infer_transpose_2d_stop in H as [? ->]; discriminate Ho
    end.
Qed.

Lemma only_library_vectors_are_indexed_unguarded_witness :
  outcome (fp8_mm Sample.vendor_no_solution false Sample.a Sample.b
             Sample.result Sample.scale_a Sample.scale_b None 0 0
             Sample.ready)
  = Stopped (undefined (out_of_bounds "heuristicResult" 0)) /\
  ("heuristicResult" = "heuristicResult" \/ "heuristicResult" = "tmpAlgo").
Proof.
  split; [reflexivity|].
  apply (only_library_vectors_are_indexed_unguarded Sample.vendor_no_solution
           false Sample.a Sample.b Sample.result Sample.scale_a
           Sample.scale_b None 0 0 Sample.ready "heuristicResult" 0).
  - apply wfb_wf. reflexivity.
  - apply wfb_wf. reflexivity.
  - reflexivity.
Defined.

(** ** Leading dimensions and strides (lines 173-179) *)

Lemma accepted_leading_dimensions
    V NDEBUG a b result sa sb sr algo_idx pad w ta tb :
  wf a -> wf b -> Int.fits64 pad -> precondition a b result pad ->
  infer_transpose NDEBUG "a" (strides a) (sizes a) w
  = mkRun (Done (Some ta)) w [] ->
  infer_transpose NDEBUG "b" (strides b) (sizes b) w
  = mkRun (Done (Some tb)) w [] ->
  exists n k kp m,
    sizes a = [n; k] /\ sizes b = [kp; m] /\
    forall args,
      In (setProblem args)
         (made (fp8_mm V NDEBUG a b result sa sb sr algo_idx pad w)) ->
      p_lda args = (if tb then m else kp) /\
      p_ldb args = (if ta then k else n) /\
      p_ldc args = m /\ p_ldd args = m /\
      p_strideD args = p_strideC args.
Proof.
  intros Wa Wb Hp Hpre Ea Eb.
  destruct (precondition_checks _ _ _ _ Wa Wb Hp Hpre)
    as (n & k & kp & m & Sa & Sb & Hk & C3 & La & Lb & C1 & C2 & C4).
  exists n, k, kp, m. split; [exact Sa|]. split; [exact Sb|].
  assert (Ek : Int.sub64 kp pad = k) by (symmetry; by apply Z.eqb_eq).
  assert (Eadd : Int.add64 k pad = kp).
  { destruct Wb as [_ Hall]. rewrite Sb in Hall.
    inversion Hall as [|? ? H0 _]; subst.
    unfold Int.add64. rewrite int64_fits; [lia|]. unfold Int.fits64. lia. }
  change (wp (fp8_mm V NDEBUG a b result sa sb sr algo_idx pad)
    (fun _ _ l => forall args, In (setProblem args) l ->
       p_lda args = (if tb then m else kp) /\
       p_ldb args = (if ta then k else n) /\
       p_ldc args = m /\ p_ldd args = m /\
       p_strideD args = p_strideC args) w).
  unfold fp8_mm. rewrite Sa, Sb in *. repeat first [wp_known | wp_det].
  eapply wp_run; [exact Eb|]. cbn beta iota.
  repeat first [wp_known | wp_det].
  eapply wp_run; [exact Ea|]. cbn beta iota.
  repeat first [wp_known | wp_det].
  rewrite Ek, Eadd.
  wp_all; cbn [app]; intros args Hin; each_call Hin; injection Hin as <-;
    cbn; destruct ta, tb; cbn; auto.
Qed.

(** X8.  For a valid call the leading dimensions are taken from the
    extents, by the inferred layout: lda is b.sizes[1] for a row-major [b]
    and b.sizes[0] for a column-major one, ldb is a.sizes[1] for a row-major
    [a] and a.sizes[0] for a column-major one, and ldc = ldd = m; the
    D stride is the C stride. *)
Theorem leading_dimensions_from_extents
    V NDEBUG a b result sa sb sr algo_idx pad w ta tb :
  wf a -> wf b -> Int.fits64 pad -> precondition a b result pad ->
  infer_transpose NDEBUG "a" (strides a) (sizes a) w
  = mkRun (Done (Some ta)) w [] ->
  infer_transpose NDEBUG "b" (strides b) (sizes b) w
  = mkRun (Done (Some tb)) w [] ->
  exists n k kp m,
    sizes a = [n; k] /\ sizes b = [kp; m] /\
    forall args,
      In (setProblem args)
         (made (fp8_mm V NDEBUG a b result sa sb sr algo_idx pad w)) ->
      p_lda args = (if tb then m else kp) /\
      p_ldb args = (if ta then k else n) /\
      p_ldc args = m /\ p_ldd args = m /\
      p_strideD args = p_strideC args.
Proof. apply accepted_leading_dimensions. Qed.

Lemma leading_dimensions_from_extents_witness :
  exists args,
    In (setProblem args)
       (made (fp8_mm Sample.vendor false Sample.a Sample.b Sample.result
                Sample.scale_a Sample.scale_b None 0 0 Sample.ready)) /\
    p_lda args = 3 /\ p_ldb args = 3 /\ p_ldc args = 4.
Proof.
  destruct (leading_dimensions_from_extents Sample.vendor false Sample.a
              Sample.b Sample.result Sample.scale_a Sample.scale_b None 0 0
              Sample.ready true false)
    as (n & k & kp & m & Sa & Sb & H).
  - apply wfb_wf. reflexivity.
  - apply wfb_wf. reflexivity.
  - unfold Int.fits64. lia.
  - exact sample_precondition.
  - exact sample_infer_a.
  - exact sample_infer_b.
  - injection Sa as <- <-. injection Sb as <- <-.
    assert (Hin' : exists args,
      In (setProblem args)
         (made (fp8_mm Sample.vendor false Sample.a Sample.b Sample.result
                  Sample.scale_a Sample.scale_b None 0 0 Sample.ready))).
    { eexists. vm_compute. right. right. right. left. reflexivity. }
    destruct Hin' as [args' Hin'].
    exists args'. split; [exact Hin'|].
    destruct (H args' Hin') as (H1 & H2 & H3 & _). auto.
Defined.

(** X9.  The strides of the operands reach the library through the two
    inferred flags only: two calls that differ in the strides of [a] and
    [b] but infer the same flags run identically.  In particular the
    leading dimensions do not follow a stride larger than the extent. *)
Theorem strides_matter_only_through_flags
    V NDEBUG a b result sa sb sr algo_idx pad w st_a st_b :
  (forall w', infer_transpose NDEBUG "a" st_a (sizes a) w'
              = infer_transpose NDEBUG "a" (strides a) (sizes a) w') ->
  (forall w', infer_transpose NDEBUG "b" st_b (sizes b) w'
              = infer_transpose NDEBUG "b" (strides b) (sizes b) w') ->
  fp8_mm V NDEBUG (with_strides a st_a) (with_strides b st_b) result sa sb sr
    algo_idx pad w
  = fp8_mm V NDEBUG a b result sa sb sr algo_idx pad w.
Proof.
  intros Ha Hb. unfold fp8_mm, with_strides.
  cbn [dtype sizes strides data_ptr dim].
  repeat (apply bind_cong; [first [reflexivity | apply Ha | apply Hb]|];
          intros).
  reflexivity.
Qed.

Lemma strides_matter_only_through_flags_witness :
  fp8_mm Sample.vendor false Sample.a (with_strides Sample.b [1; 8])
    Sample.result Sample.scale_a Sample.scale_b None 0 0 Sample.ready
  = fp8_mm Sample.vendor false Sample.a Sample.b Sample.result
      Sample.scale_a Sample.scale_b None 0 0 Sample.ready.
Proof.
  apply (strides_matter_only_through_flags Sample.vendor false Sample.a
           Sample.b Sample.result Sample.scale_a Sample.scale_b None 0 0
           Sample.ready (strides Sample.a) [1; 8]).
  - intros w'. reflexivity.
  - intros w'. reflexivity.
Defined.

(** ** Contiguous operands (lines 98-120) *)

Lemma contiguous_layout NDEBUG name (x : Tensor) z0 z1 w :
  sizes x = [z0; z1] ->
  (strides x = [Z.max z1 1; 1] ->
   row_major x /\
   infer_transpose NDEBUG name (strides x) (sizes x) w
   = mkRun (Done (Some (negb ((z0 <=? 1) && (z1 <=? 1))))) w []) /\
  (strides x = [1; Z.max z0 1] ->
   column_major x /\
   infer_transpose NDEBUG name (strides x) (sizes x) w
   = mkRun (Done (Some false)) w []).
Proof.
  intros Sz. split; intros St.
  - split.
    + unfold row_major. rewrite St, Sz. lia.
    + rewrite St, Sz, infer_transpose_2d.
      destruct (Z.leb_spec z0 1), (Z.leb_spec z1 1); cbn [andb negb].
      * replace (Z.max z1 1 =? 1) with true by (symmetry; apply Z.eqb_eq; lia).
        replace (Z.max 1 z0 <=? 1) with true by (symmetry; apply Z.leb_le; lia).
        reflexivity.
      * replace (Z.max z1 1 =? 1) with false
          by (symmetry; apply Z.eqb_neq; lia).
        cbn [andb]. rewrite Z.eqb_refl.
        replace (Z.max 1 z1 <=? Z.max z1 1) with true
          by (symmetry; apply Z.leb_le; lia).
        reflexivity.
      * replace (Z.max 1 z0 <=? 1) with false
          by (symmetry; apply Z.leb_gt; lia).
        rewrite andb_false_r. rewrite Z.eqb_refl.
        replace (Z.max 1 z1 <=? Z.max z1 1) with true
          by (symmetry; apply Z.leb_le; lia).
        reflexivity.
      * replace (Z.max 1 z0 <=? 1) with false
          by (symmetry; apply Z.leb_gt; lia).
        rewrite andb_false_r. rewrite Z.eqb_refl.
        replace (Z.max 1 z1 <=? Z.max z1 1) with true
          by (symmetry; apply Z.leb_le; lia).
        reflexivity.
  - assert (Hc : column_major x).
    { unfold column_major. rewrite St, Sz. lia. }
    split; [exact Hc|]. by apply infer_column_major.
Qed.

(** X10.  A contiguous 2-D operand (strides (max(sizes[1],1), 1)) always
    has its layout inferred: it matches the row-major pattern, and its flag
    is true unless both extents are at most 1, where the column-major test
    wins.  The transposed view of a contiguous tensor (strides
    (1, max(sizes[0],1))) is column-major, with flag false.  Neither reaches
    the assertion. *)
Theorem contiguous_operands_are_laid_out NDEBUG name (x : Tensor) z0 z1 w :
  sizes x = [z0; z1] ->
  (strides x = [Z.max z1 1; 1] ->
   row_major x /\
   infer_transpose NDEBUG name (strides x) (sizes x) w
   = mkRun (Done (Some (negb ((z0 <=? 1) && (z1 <=? 1))))) w []) /\
  (strides x = [1; Z.max z0 1] ->
   column_major x /\
   infer_transpose NDEBUG name (strides x) (sizes x) w
   = mkRun (Done (Some false)) w []).
Proof. apply contiguous_layout. Qed.

Lemma contiguous_operands_are_laid_out_witness :
  row_major Sample.a /\
  infer_transpose false "a" (strides Sample.a) (sizes Sample.a) Sample.ready
  = mkRun (Done (Some true)) Sample.ready [].
Proof.
  apply (contiguous_operands_are_laid_out false "a" Sample.a 2 3
           Sample.ready); reflexivity.
Defined.

(** X11.  The usual call: [a] contiguous with more than one element along
    some dimension, [b] the transposed view of a contiguous weight.  The
    library is asked for op(A) = T on [b] with lda = b.sizes[0] and
    op(B) = N on [a] with ldb = a.sizes[1]. *)
Theorem usual_call_is_transposed_by_plain
    V NDEBUG a b result sa sb sr algo_idx pad w n k kp m :
  wf a -> wf b -> Int.fits64 pad -> precondition a b result pad ->
  sizes a = [n; k] -> strides a = [Z.max k 1; 1] -> 2 <= n \/ 2 <= k ->
  sizes b = [kp; m] -> strides b = [1; Z.max kp 1] ->
  exists pt args rest,
    made (fp8_mm V NDEBUG a b result sa sb sr algo_idx pad w)
    = setMaxWorkspaceBytes (workspace_size w)
      :: Gemm (v_handle V) pt :: getProblemTypes
      :: setProblem args :: rest /\
    op_a pt = HIPBLAS_OP_T /\ op_b pt = HIPBLAS_OP_N /\
    p_problemtype args = pt /\
    p_lda args = kp /\ p_ldb args = k /\ p_ldc args = m.
Proof.
  intros Wa Wb Hp Hpre Sa Ta Hbig Sb Tb.
  destruct (contiguous_layout NDEBUG "a" a n k w Sa)
    as [Hrow _].
  destruct (Hrow Ta) as [_ Ea].
  replace ((n <=? 1) && (k <=? 1)) with false in Ea
    by (symmetry; apply andb_false_iff;
        destruct Hbig; [left | right]; apply Z.leb_gt; lia).
  cbn [negb] in Ea.
  destruct (contiguous_layout NDEBUG "b" b kp m w Sb)
    as [_ Hcol].
  destruct (Hcol Tb) as [_ Eb].
  destruct (accepted_problem V NDEBUG a b result sa sb sr algo_idx pad w
              true false Wa Wb Hp Hpre Ea Eb)
    as (n' & k' & kp' & m' & pt & args & rest & Sa' & Sb' & _ & Hmade & -> &
        _ & _ & (Hopa & Hopb) & _).
  destruct (accepted_leading_dimensions V NDEBUG a b result sa sb sr algo_idx
              pad w true false Wa Wb Hp Hpre Ea Eb)
    as (n'' & k'' & kp'' & m'' & Sa'' & Sb'' & Hld).
  rewrite Sa in Sa''. rewrite Sb in Sb''.
  injection Sa'' as <- <-. injection Sb'' as <- <-.
  exists (p_problemtype args), args, rest.
  split; [exact Hmade|].
  destruct (Hld args) as (H1 & H2 & H3 & _).
  { rewrite Hmade. cbn. auto. }
  cbn in H1, H2. auto 10.
Qed.

Lemma usual_call_is_transposed_by_plain_witness :
  exists pt args rest,
    made (fp8_mm Sample.vendor false Sample.a Sample.b Sample.result
            Sample.scale_a Sample.scale_b None 0 0 Sample.ready)
    = setMaxWorkspaceBytes 65536 :: Gemm 11 pt :: getProblemTypes
      :: setProblem args :: rest /\
    op_a pt = HIPBLAS_OP_T /\ op_b pt = HIPBLAS_OP_N /\
    p_problemtype args = pt /\
    p_lda args = 3 /\ p_ldb args = 3 /\ p_ldc args = 4.
Proof.
  apply (usual_call_is_transposed_by_plain Sample.vendor false Sample.a
           Sample.b Sample.result Sample.scale_a Sample.scale_b None 0 0
           Sample.ready 2 3 3 4).
  - apply wfb_wf. reflexivity.
  - apply wfb_wf. reflexivity.
  - unfold Int.fits64. lia.
  - exact sample_precondition.
  - reflexivity.
  - reflexivity.
  - left. lia.
  - reflexivity.
  - reflexivity.
Defined.

(** ** More on the workspace (lines 42-66) *)

(** The calls of [create_workspace]: the warning, then the allocation
    requested not at all, once, or three times. *)
Lemma create_workspace_made V w :
  let r := create_workspace V w in
  let size := workspace_size (world r) in
  exists allocations,
    made r = (warned (env_seen w) ++ allocations)%list /\
    (allocations = [] /\ size = 0 \/
     allocations = [hipMalloc size] /\ 0 < size \/
     allocations = [hipMalloc size; hipMalloc size; hipMalloc size] /\
     0 < size).
Proof.
  intros r size. subst r size.
  pose proof (create_workspace_run V w) as H. unfold wp in H. cbn zeta in H.
  destruct H as (Hsize & _ & _ & Hcases). rewrite Hsize.
  destruct Hcases as [(H0 & Hl & _)|[(Hpos & _ & Hl & _)|(Hpos & _ & Hl & _)]].
  - exists []. rewrite app_nil_r. auto.
  - eexists. split; [exact Hl|]. auto.
  - eexists. split; [exact Hl|]. auto.
Qed.

Lemma in_warned seen t d :
  In (TORCH_WARN t d) (warned seen) <->
  d = 32 * 1024 /\
  exists text, seen = Some text /\
    (Stoi.stoi text = Stoi.invalid_argument /\
     t = "invalid HIPBLASLT_WORKSPACE_SIZE, using default workspace size of "
     \/
     Stoi.stoi text = Stoi.out_of_range /\
     t = "HIPBLASLT_WORKSPACE_SIZE out of range, using default workspace size of ").
Proof.
  unfold warned. split.
  - destruct seen as [text|]; [|intros []].
    destruct (Stoi.stoi text) eqn:Es; intros Hin; each_call Hin;
      injection Hin as <- <-; (split; [reflexivity|]); exists text;
      (split; [reflexivity|]); auto.
  - intros (-> & text & -> & [[-> ->]|[-> ->]]); cbn; auto.
Qed.

Lemma scaled_size_zero v :
  Int.fits32 v -> (1024 * v) mod 2 ^ 64 = 0 -> v = 0.
Proof.
  unfold Int.fits32. intros R H.
  destruct (Z_lt_le_dec v 0) as [Hneg|Hpos].
  - assert (E : (1024 * v) mod 2 ^ 64 = 1024 * v + 2 ^ 64).
    { symmetry. apply (Z.mod_unique _ _ (-1)); lia. }
    lia.
  - rewrite Z.mod_small in H by lia. lia.
Qed.

Lemma size_read_zero seen :
  size_read seen = 0 <->
  exists text, seen = Some text /\ Stoi.stoi text = Stoi.Ok 0.
Proof.
  unfold size_read. split.
  - destruct seen as [text|]; [|discriminate].
    destruct (Stoi.stoi text) as [v| |] eqn:Es; try discriminate.
    intros H0. exists text. split; [reflexivity|].
    rewrite Es. f_equal. apply stoi_range in Es.
    exact (scaled_size_zero v Es H0).
  - intros (text & -> & ->). reflexivity.
Qed.

(** X12.  [getenv] is called by the first call only.  A later
    [create_workspace] finds the pointer it kept, whatever the variables of
    the environment have become, and reads the text that is at that address
    then: a variable set to a value kept elsewhere changes nothing, a text
    overwritten in place is what the later call reads. *)
Theorem variable_is_looked_up_once V V' w e' :
  let first := create_workspace V w in
  let second := create_workspace V' (with_environ (world first) e') in
  (env (world first) = Some (env_pointer w) /\
   env (world second) = env (world first)) /\
  workspace_size (world second)
  = size_read (if env_pointer w =? nullptr then None
               else Some (text_at e' (env_pointer w))) /\
  (text_at e' (env_pointer w) = text_at (environ w) (env_pointer w) ->
   workspace_size (world second) = workspace_size (world first)).
Proof.
  intros r1 r2. subst r1 r2.
  pose proof (create_workspace_run V w) as H1. unfold wp in H1.
  cbn zeta in H1. destruct H1 as (S1 & _ & E1 & _).
  pose proof (create_workspace_run V'
                (with_environ (world (create_workspace V w)) e')) as H2.
  unfold wp in H2. cbn zeta in H2. destruct H2 as (S2 & _ & E2 & _).
  assert (P : env_pointer (with_environ (world (create_workspace V w)) e')
              = env_pointer w).
  { unfold env_pointer at 1, with_environ. cbn [env]. by rewrite E1. }
  assert (Seen : env_seen (with_environ (world (create_workspace V w)) e')
                 = if env_pointer w =? nullptr then None
                   else Some (text_at e' (env_pointer w))).
  { unfold env_seen at 1. rewrite P. reflexivity. }
  rewrite P in E2. rewrite Seen in S2.
  split; [split; [exact E1 | by rewrite E1]|].
  split; [exact S2|].
  intros Ht. rewrite S2, S1. unfold env_seen. by rewrite Ht.
Qed.

Lemma variable_is_looked_up_once_witness :
  let moved :=
    {| variables := {[ "HIPBLASLT_WORKSPACE_SIZE" := 9000 ]};
       text_at := fun p => if p =? 9000 then "128"
                           else if p =? 7000 then "64" else "" |} in
  let first := create_workspace Sample.vendor (start (Sample.setenv "64")) in
  let second :=
    create_workspace Sample.vendor_later (with_environ (world first) moved) in
  getenv moved "HIPBLASLT_WORKSPACE_SIZE" = 9000 /\
  workspace_size (world first) = 65536 /\
  workspace_size (world second) = 65536.
Proof.
  intros moved first second.
  destruct (variable_is_looked_up_once Sample.vendor Sample.vendor_later
              (start (Sample.setenv "64")) moved) as (_ & _ & H).
  split; [reflexivity|]. split; [reflexivity|].
  fold first second in H. rewrite H; reflexivity.
Defined.

(** X13.  The allocation is skipped exactly when the variable reads as 0;
    then [create_workspace] returns, the size is 0 and the workspace pointer
    is left as it was (null on a first call).  Any other value, and the
    default, lead to a [hipMalloc]. *)
Theorem allocation_skipped_exactly_for_zero V w :
  let r := create_workspace V w in
  ((forall sz, ~ In (hipMalloc sz) (made r)) <->
   exists text, env_seen w = Some text /\ Stoi.stoi text = Stoi.Ok 0) /\
  ((forall sz, ~ In (hipMalloc sz) (made r)) ->
   outcome r = Done tt /\ workspace (world r) = workspace w /\
   workspace_size (world r) = 0).
Proof.
  intros r. subst r.
  pose proof (create_workspace_run V w) as H. unfold wp in H. cbn zeta in H.
  destruct H as (Hsize & _ & _ & Hcases).
  assert (Hzero : (forall sz, ~ In (hipMalloc sz)
                                 (made (create_workspace V w))) ->
                  size_read (env_seen w) = 0 /\
                  outcome (create_workspace V w) = Done tt /\
                  workspace (world (create_workspace V w)) = workspace w).
  { intros Hno.
    destruct Hcases
      as [(H0 & _ & Ho & Hw)|[(_ & _ & Hl & _)|(_ & _ & Hl & _)]]; [auto| |];
      exfalso; apply (Hno (size_read (env_seen w))); rewrite Hl;
      apply in_or_app; right; cbn; auto. }
  split; [split|].
  - intros Hno. apply size_read_zero. by destruct (Hzero Hno).
  - intros Hex sz Hin. apply size_read_zero in Hex.
    destruct Hcases
      as [(_ & Hl & _)|[(Hpos & _)|(Hpos & _)]]; [|lia|lia].
    rewrite Hl in Hin. destruct (warned_calls _ _ Hin) as [t [=]].
  - intros Hno. destruct (Hzero Hno) as (H0 & Ho & Hw).
    rewrite Hsize. auto.
Qed.

Lemma allocation_skipped_exactly_for_zero_witness :
  let r := create_workspace Sample.vendor
             (start (Sample.setenv "0")) in
  outcome r = Done tt /\ workspace (world r) = nullptr /\
  workspace_size (world r) = 0.
Proof.
  intros r.
  destruct (allocation_skipped_exactly_for_zero Sample.vendor
              (start (Sample.setenv "0"))) as [H1 H2].
  apply H2. apply H1. exists "0". split; reflexivity.
Defined.

(** X14.  Nothing in [create_workspace] looks at what [workspace] holds:
    with a size other than 0 it calls [hipMalloc], and it calls nothing
    but [hipMalloc] and [TORCH_WARN], so a buffer held before is not freed.
    When the first [hipMalloc] fails the check evaluates the call twice
    more: three requests of the same size are made, and the process exits
    whatever the second and third answer. *)
Theorem failed_allocation_is_requested_three_times V w :
  let r := create_workspace V w in
  let sz := workspace_size (world r) in
  (0 < sz -> fst (v_hipMalloc V sz) <> hipSuccess ->
   outcome r = Stopped (exit_failure CHECK_HIP_ERROR (fst (v_hipMalloc V sz)))
   /\ List.filter is_hipMalloc (made r)
      = [hipMalloc sz; hipMalloc sz; hipMalloc sz]) /\
  (0 < sz -> In (hipMalloc sz) (made r)) /\
  (forall c, In c (made r) ->
     entry c = "hipMalloc" \/ entry c = "TORCH_WARN").
Proof.
  intros r sz. subst r sz.
  pose proof (create_workspace_run V w) as H. unfold wp in H. cbn zeta in H.
  destruct H as (Hsize & _ & _ & Hcases). rewrite Hsize.
  pose proof (warned_calls (env_seen w)) as Hwarn.
  split; [|split].
  - intros Hpos Hne.
    destruct Hcases as [(H0 & _)|[(_ & Hok & _)|(_ & _ & Hl & Ho & _)]];
      [lia|contradiction|].
    split; [exact Ho|].
    rewrite Hl, List.filter_app, (filter_warnings _ Hwarn). reflexivity.
  - intros Hpos.
    destruct Hcases as [(H0 & _)|[(_ & _ & Hl & _)|(_ & _ & Hl & _)]];
      [lia| |]; rewrite Hl; apply in_or_app; right; cbn; auto.
  - intros c Hin.
    assert (Hc : In c (warned (env_seen w)) \/
                 c = hipMalloc (size_read (env_seen w))).
    { destruct Hcases as [(_ & Hl & _)|[(_ & _ & Hl & _)|(_ & _ & Hl & _)]];
        rewrite Hl in Hin; [auto| |];
        apply in_app_or in Hin as [Hin|Hin]; auto;
        each_call Hin; auto. }
    destruct Hc as [Hc| ->]; [|by left].
    destruct (Hwarn c Hc) as [t ->]. by right.
Qed.

Lemma failed_allocation_is_requested_three_times_witness :
  let V := {| v_hipMalloc := fun _ => (2, nullptr);
              v_setProblem := v_setProblem Sample.vendor;
              v_algoGetHeuristic := v_algoGetHeuristic Sample.vendor;
              v_getIndexFromAlgo := v_getIndexFromAlgo Sample.vendor;
              v_getAlgosFromIndex := v_getAlgosFromIndex Sample.vendor;
              v_initialize := v_initialize Sample.vendor;
              v_run := v_run Sample.vendor;
              v_again := fun _ _ => (hipSuccess, 8192);
              v_handle := 11; v_stream := 22;
              v_cublasGetErrorEnum := v_cublasGetErrorEnum Sample.vendor |} in
  let r := create_workspace V Sample.ready in
  outcome r = Stopped (exit_failure CHECK_HIP_ERROR 2) /\
  List.filter is_hipMalloc (made r)
  = [hipMalloc 65536; hipMalloc 65536; hipMalloc 65536].
Proof.
  intros V r.
  destruct (failed_allocation_is_requested_three_times V Sample.ready)
    as [H _].
  apply H.
  - reflexivity.
  - cbn. discriminate.
Defined.

(** X15.  A warning is issued exactly when the variable is set and
    [std::stoi] rejects it, once, naming the default of 32768 KiB: the
    "invalid" text for a value without digits, the "out of range" text for
    one outside [int].  An unset variable is silent. *)
Theorem warning_exactly_for_unreadable_value V w :
  let r := create_workspace V w in
  (forall t d, In (TORCH_WARN t d) (made r) ->
     d = 32 * 1024 /\
     exists text, env_seen w = Some text /\
       (Stoi.stoi text = Stoi.invalid_argument /\
        t = "invalid HIPBLASLT_WORKSPACE_SIZE, using default workspace size of "
        \/
        Stoi.stoi text = Stoi.out_of_range /\
        t = "HIPBLASLT_WORKSPACE_SIZE out of range, using default workspace size of ")) /\
  (forall text, env_seen w = Some text ->
     (forall v, Stoi.stoi text <> Stoi.Ok v) ->
     exists t, In (TORCH_WARN t (32 * 1024)) (made r)) /\
  (env_seen w = None -> forall t d, ~ In (TORCH_WARN t d) (made r)) /\
  (length (List.filter is_TORCH_WARN (made r)) <= 1)%nat.
Proof.
  intros r. subst r.
  destruct (create_workspace_made V w) as (allocations & Hl & Hcases).
  assert (Hw : forall t d,
             In (TORCH_WARN t d) (made (create_workspace V w)) ->
             In (TORCH_WARN t d) (warned (env_seen w))).
  { intros t d Hin. rewrite Hl in Hin.
    apply in_app_or in Hin as [Hin|Hin]; [exact Hin|].
    destruct Hcases as [[-> _]|[[-> _]|[-> _]]]; each_call Hin. }
  split; [|split; [|split]].
  - intros t d Hin. apply in_warned. by apply Hw.
  - intros text He Hbad. rewrite Hl, He. unfold warned.
    destruct (Stoi.stoi text) as [v| |] eqn:Es.
    + exfalso. by apply (Hbad v).
    + eexists. apply in_or_app. left. cbn. left. reflexivity.
    + eexists. apply in_or_app. left. cbn. left. reflexivity.
  - intros Hnone t d Hin. apply Hw in Hin. rewrite Hnone in Hin.
    destruct Hin.
  - rewrite Hl, List.filter_app, length_app.
    assert (Ha : List.filter is_TORCH_WARN allocations = []).
    { destruct Hcases as [[-> _]|[[-> _]|[-> _]]]; reflexivity. }
    rewrite Ha. cbn [length]. rewrite Nat.add_0_r.
    etransitivity; [apply List.filter_length_le|].
    unfold warned. destruct (env_seen w) as [text|]; [|cbn; lia].
    destruct (Stoi.stoi text); cbn; lia.
Qed.

Lemma warning_exactly_for_unreadable_value_witness :
  exists t,
    In (TORCH_WARN t (32 * 1024))
       (made (create_workspace Sample.vendor
                (start (Sample.setenv "auto")))).
Proof.
  destruct (warning_exactly_for_unreadable_value Sample.vendor
              (start (Sample.setenv "auto")))
    as (_ & H & _).
  apply (H "auto").
  - reflexivity.
  - intros v. discriminate.
Defined.

(** ** How the value of the variable is read (line 50) *)

Lemma append_cons c r s : String c r +:+ s = String c (r +:+ s).
Proof. reflexivity. Qed.

Lemma append_nil s : "" +:+ s = s.
Proof. reflexivity. Qed.

Lemma skip_space_app sp s :
  all_chars Stoi.isspace sp = true ->
  Stoi.skip_space (sp +:+ s) = Stoi.skip_space s.
Proof.
  induction sp as [|c r IH]; [reflexivity|].
  rewrite append_cons. cbn [all_chars Stoi.skip_space].
  intros H. apply andb_prop in H as [Hc Hr]. rewrite Hc. by apply IH.
Qed.

Lemma digit_not_space c : is_digit c = true -> Stoi.isspace c = false.
Proof.
  unfold is_digit, Stoi.digit, Stoi.isspace.
  set (n := Z.of_nat (nat_of_ascii c)).
  destruct ((48 <=? n) && (n <=? 57)) eqn:E; [|discriminate].
  intros _. apply andb_prop in E as [E1 E2].
  apply Z.leb_le in E1. apply Z.leb_le in E2.
  apply orb_false_iff. split.
  - apply Z.eqb_neq. lia.
  - apply andb_false_iff. right. apply Z.leb_gt. lia.
Qed.

Lemma digit_not_sign c :
  is_digit c = true ->
  Ascii.eqb c "-"%char = false /\ Ascii.eqb c "+"%char = false.
Proof.
  intros H. split.
  - destruct (Ascii.eqb_spec c "-"%char); [subst; discriminate H|reflexivity].
  - destruct (Ascii.eqb_spec c "+"%char); [subst; discriminate H|reflexivity].
Qed.

Lemma digits_app ds t acc :
  all_chars is_digit ds = true -> Stoi.starts_with_digit t = false ->
  Stoi.digits (ds +:+ t) acc = Stoi.digits ds acc.
Proof.
  revert acc. induction ds as [|c r IH]; intros acc Hd Ht.
  - rewrite append_nil. destruct t as [|c r]; [reflexivity|].
    cbn [Stoi.starts_with_digit Stoi.digits] in *.
    destruct (Stoi.digit c); [discriminate Ht | reflexivity].
  - rewrite append_cons. cbn [all_chars Stoi.digits] in *.
    apply andb_prop in Hd as [Hc Hr]. unfold is_digit in Hc.
    destruct (Stoi.digit c); [|discriminate Hc]. by apply IH.
Qed.

Lemma stoi_unsigned_suffix ds t :
  ds <> "" -> all_chars is_digit ds = true ->
  Stoi.starts_with_digit t = false ->
  Stoi.skip_space (ds +:+ t) = ds +:+ t /\
  Stoi.sign (ds +:+ t) = (false, ds +:+ t) /\
  Stoi.starts_with_digit (ds +:+ t) = true /\
  Stoi.digits (ds +:+ t) 0 = Stoi.digits ds 0.
Proof.
  intros Hne Hd Ht. split; [|split; [|split]].
  - destruct ds as [|c r]; [done|].
    cbn [all_chars] in Hd. rewrite append_cons. cbn [Stoi.skip_space].
    apply andb_prop in Hd as [Hc _]. by rewrite (digit_not_space c Hc).
  - destruct ds as [|c r]; [done|].
    cbn [all_chars] in Hd. rewrite append_cons. cbn [Stoi.sign].
    apply andb_prop in Hd as [Hc _].
    destruct (digit_not_sign c Hc) as [-> ->]. reflexivity.
  - destruct ds as [|c r]; [done|].
    cbn [all_chars] in Hd. rewrite append_cons. cbn [Stoi.starts_with_digit].
    apply andb_prop in Hd as [Hc _]. unfold is_digit in Hc.
    by destruct (Stoi.digit c).
  - by apply digits_app.
Qed.

Lemma stoi_trailing_text sg ds t :
  sg = "" \/ sg = "+" \/ sg = "-" ->
  ds <> "" -> all_chars is_digit ds = true ->
  Stoi.starts_with_digit t = false ->
  Stoi.stoi (sg +:+ (ds +:+ t)) = Stoi.stoi (sg +:+ ds).
Proof.
  intros Hsg Hne Hd Ht.
  destruct (stoi_unsigned_suffix ds t Hne Hd Ht) as (K1 & K2 & K3 & K4).
  destruct (stoi_unsigned_suffix ds "" Hne Hd eq_refl) as (L1 & L2 & L3 & L4).
  assert (E : ds +:+ "" = ds).
  { clear. induction ds as [|c r IH]; [reflexivity|].
    rewrite append_cons. by rewrite IH. }
  rewrite E in L1, L2, L3, L4.
  destruct Hsg as [-> | [-> | ->]]; unfold Stoi.stoi;
    rewrite ?append_cons, ?append_nil.
  - rewrite K1, K2, K3, K4, L1, L2, L3. reflexivity.
  - assert (S : forall s, Stoi.sign (Stoi.skip_space (String "+" s))
                          = (false, s)) by reflexivity.
    rewrite !S, K3, K4, L3. reflexivity.
  - assert (S : forall s, Stoi.sign (Stoi.skip_space (String "-" s))
                          = (true, s)) by reflexivity.
    rewrite !S, K3, K4, L3. reflexivity.
Qed.

(** X16.  The value may carry leading white space and any text after its
    digits: both are ignored, so "64MB" and " 64" both ask for 64 KiB.
    White space, an optional sign, digits, then text not starting with a
    digit reads as the sign and digits alone, and gives the same size. *)
Theorem value_ignores_leading_space_and_trailing_text V V' w w' sp sg ds t :
  all_chars Stoi.isspace sp = true ->
  sg = "" \/ sg = "+" \/ sg = "-" ->
  ds <> "" -> all_chars is_digit ds = true ->
  Stoi.starts_with_digit t = false ->
  env_seen w = Some (sp +:+ (sg +:+ (ds +:+ t))) ->
  env_seen w' = Some (sg +:+ ds) ->
  Stoi.stoi (sp +:+ (sg +:+ (ds +:+ t))) = Stoi.stoi (sg +:+ ds) /\
  workspace_size (world (create_workspace V w))
  = workspace_size (world (create_workspace V' w')).
Proof.
  intros Hsp Hsg Hne Hd Ht Hw Hw'.
  assert (E : Stoi.stoi (sp +:+ (sg +:+ (ds +:+ t))) = Stoi.stoi (sg +:+ ds)).
  { rewrite <- (stoi_trailing_text sg ds t Hsg Hne Hd Ht).
    unfold Stoi.stoi. by rewrite skip_space_app. }
  split; [exact E|].
  pose proof (create_workspace_run V w) as H1. unfold wp in H1.
  cbn zeta in H1. destruct H1 as (S1 & _).
  pose proof (create_workspace_run V' w') as H2. unfold wp in H2.
  cbn zeta in H2. destruct H2 as (S2 & _).
  rewrite S1, S2, Hw, Hw'. unfold size_read. rewrite E. reflexivity.
Qed.

Lemma value_ignores_leading_space_and_trailing_text_witness :
  Stoi.stoi " 64MB" = Stoi.stoi "64" /\
  workspace_size (world (create_workspace Sample.vendor
                    (start (Sample.setenv " 64MB"))))
  = workspace_size (world (create_workspace Sample.vendor
                      (start (Sample.setenv "64")))).
Proof.
  apply (value_ignores_leading_space_and_trailing_text Sample.vendor
           Sample.vendor
           (start (Sample.setenv " 64MB"))
           (start (Sample.setenv "64"))
           " " "" "64" "MB").
  - reflexivity.
  - left. reflexivity.
  - discriminate.
  - reflexivity.
  - reflexivity.
  - reflexivity.
  - reflexivity.
Defined.

(** ** From [create_workspace] to [fp8_mm] *)

(** X17.  After a [create_workspace] that returned, every invocation of
    [fp8_mm] gives the library the size computed there as workspace limit
    and, for a positive size, the address [hipMalloc] answered as
    workspace.  Without [create_workspace] the limit is 0 and the workspace
    is the null pointer. *)
Theorem workspace_reaches_the_library
    V0 w V NDEBUG a b result sa sb sr algo_idx pad :
  (let created := create_workspace V0 w in
   let size := workspace_size (world created) in
   let r := fp8_mm V NDEBUG a b result sa sb sr algo_idx pad
              (world created) in
   outcome created = Done tt ->
   (forall n, In (setMaxWorkspaceBytes n) (made r) -> n = size) /\
   (forall x p, In (initialize x p) (made r) ->
      0 < size -> p = snd (v_hipMalloc V0 size))) /\
  (forall e,
     let r := fp8_mm V NDEBUG a b result sa sb sr algo_idx pad (start e) in
     (forall n, In (setMaxWorkspaceBytes n) (made r) -> n = 0) /\
     (forall x p, In (initialize x p) (made r) -> p = nullptr)).
Proof.
  split.
  - intros r0 size r Hdone. subst r0 size r.
    destruct (fp8_mm_workspace V NDEBUG a b result sa sb sr algo_idx pad
                (world (create_workspace V0 w))) as (_ & Hn & Hp & _).
    split; [exact Hn|].
    intros x p Hin Hlt. rewrite (Hp x p Hin).
    pose proof (create_workspace_run V0 w) as H. unfold wp in H.
    cbn zeta in H. destruct H as (Hsize & _ & _ & Hcases).
    rewrite Hsize in *.
    destruct Hcases as [(H0 & _)|[(_ & _ & _ & _ & Hw)|(_ & _ & _ & Ho & _)]].
    + lia.
    + exact Hw.
    + rewrite Ho in Hdone. discriminate Hdone.
  - intros e r. subst r.
    destruct (fp8_mm_workspace V NDEBUG a b result sa sb sr algo_idx pad
                (start e)) as (_ & Hn & Hp & _).
    split; [exact Hn | exact Hp].
Qed.

Lemma workspace_reaches_the_library_witness :
  let created := create_workspace Sample.vendor
                   (start (Sample.setenv "64")) in
  let r := fp8_mm Sample.vendor false Sample.a Sample.b Sample.result
             Sample.scale_a Sample.scale_b None 0 0 (world created) in
  In (setMaxWorkspaceBytes 65536) (made r) /\
  forall x p, In (initialize x p) (made r) -> p = 4096.
Proof.
  intros created r.
  destruct (workspace_reaches_the_library Sample.vendor
              (start (Sample.setenv "64"))
              Sample.vendor false Sample.a Sample.b Sample.result
              Sample.scale_a Sample.scale_b None 0 0) as [H _].
  destruct H as [_ Hp].
  - reflexivity.
  - split.
    + vm_compute. tauto.
    + intros x p Hin. apply (Hp x p Hin). reflexivity.
Defined.

(** ** The unused argument checks (lines 12-17) *)

Lemma last_char_app x s :
  s <> "" -> last_char (x +:+ s) = last_char s.
Proof.
  intros Hs. induction x as [|c r IH]; [reflexivity|].
  rewrite append_cons. cbn [last_char]. rewrite IH.
  destruct (r +:+ s) eqn:E; [|reflexivity].
  destruct r; [|discriminate E]. rewrite append_nil in E. contradiction.
Qed.

Lemma check_input_message_end is_cuda is_contiguous x w msg :
  outcome (CHECK_INPUT is_cuda is_contiguous x w) = Stopped (c10_Error msg) ->
  last_char msg = Some "r"%char \/ last_char msg = Some "s"%char.
Proof.
  unfold CHECK_INPUT, CHECK_CUDA, CHECK_CONTIGUOUS, TORCH_CHECK, bind, ret,
    stop, after.
  intros H.
  destruct is_cuda; [destruct is_contiguous|]; cbn in H;
    try discriminate H; injection H as <-;
    rewrite last_char_app by discriminate; auto.
Qed.

Lemma argument_message_end msg :
  In msg fp8_mm_messages -> last_char msg = Some "."%char.
Proof.
  unfold fp8_mm_messages. intros Hin.
  repeat (destruct Hin as [<-|Hin]; [reflexivity|]). destruct Hin.
Qed.

Lemma lookup_error_end V status :
  last_char (lookup_error V status) = Some "`"%char.
Proof.
  unfold lookup_error.
  rewrite last_char_app.
  - rewrite last_char_app by discriminate. reflexivity.
  - destruct (v_cublasGetErrorEnum V status); [discriminate|].
    rewrite append_cons. discriminate.
Qed.

(** X18.  [CHECK_INPUT(x)] passes exactly for a CUDA tensor that is
    contiguous, reports the device first when both fail, and calls
    nothing.  [fp8_mm] uses none of these checks: no error it raises is one
    that [CHECK_INPUT] could raise, for any tensor name. *)
Theorem check_input_is_defined_but_not_applied
    is_cuda is_contiguous x w0 V NDEBUG a b result sa sb sr algo_idx pad w :
  let c := CHECK_INPUT is_cuda is_contiguous x w0 in
  (made c = [] /\ world c = w0) /\
  (outcome c = Done tt <-> is_cuda = true /\ is_contiguous = true) /\
  (is_cuda = false ->
   outcome c = Stopped (c10_Error (x +:+ " must be a CUDA tensor"))) /\
  (is_cuda = true -> is_contiguous = false ->
   outcome c = Stopped (c10_Error (x +:+ " must be contiguous"))) /\
  (forall s, outcome c = Stopped s ->
     outcome (fp8_mm V NDEBUG a b result sa sb sr algo_idx pad w)
     <> Stopped s).
Proof.
  intros c. subst c. split; [|split; [|split; [|split]]].
  - destruct is_cuda, is_contiguous; split; reflexivity.
  - destruct is_cuda, is_contiguous; cbn; split;
      first [intros [? ?] | intros ?]; try discriminate; auto.
  - intros ->. reflexivity.
  - intros -> ->. reflexivity.
  - intros s Hs Hf.
    assert (exists msg, s = c10_Error msg) as [msg ->].
    { destruct is_cuda; [destruct is_contiguous|]; cbn in Hs;
        try discriminate Hs; injection Hs as <-; eauto. }
    apply check_input_message_end in Hs.
    destruct (fp8_mm_exceptions V NDEBUG a b result sa sb sr algo_idx pad w)
      as [H _].
    destruct (H msg Hf) as [[Hin _]|(h & idx & _ & _ & ->)].
    + apply argument_message_end in Hin. rewrite Hin in Hs.
      destruct Hs as [Hs|Hs]; discriminate Hs.
    + rewrite lookup_error_end in Hs.
      destruct Hs as [Hs|Hs]; discriminate Hs.
Qed.

Lemma check_input_is_defined_but_not_applied_witness :
  outcome (CHECK_INPUT false false "a" Sample.ready)
  = Stopped (c10_Error "a must be a CUDA tensor") /\
  outcome (fp8_mm Sample.vendor false Sample.a_float Sample.b Sample.result
             Sample.scale_a Sample.scale_b None 0 0 Sample.ready)
  <> Stopped (c10_Error "a must be a CUDA tensor").
Proof.
  destruct (check_input_is_defined_but_not_applied false false "a"
              Sample.ready Sample.vendor false Sample.a_float Sample.b
              Sample.result Sample.scale_a Sample.scale_b None 0 0
              Sample.ready) as (_ & _ & Hcuda & _ & Hnot).
  split.
  - apply Hcuda. reflexivity.
  - apply Hnot. apply Hcuda. reflexivity.
Defined.

(** ** What reaches the library *)

Lemma precondition_decidable a b result pad :
  precondition a b result pad \/ ~ precondition a b result pad.
Proof.
  unfold precondition.
  destruct (decide (dtype a = kFloat8_e4m3fnuz)); [|tauto].
  destruct (decide (dtype b = kFloat8_e4m3fnuz)); [|tauto].
  destruct (Z.eq_dec (dim a) 2); [|tauto].
  destruct (Z.eq_dec (dim b) 2); [|tauto].
  destruct (decide (sizes a !! 1%nat
                    = (fun b0 => b0 - pad) <$> sizes b !! 0%nat)); [|tauto].
  destruct (decide (dtype result = kFloat8_e4m3fnuz)); [tauto|].
  destruct (decide (dtype result = kFloat16)); [tauto|].
  destruct (decide (dtype result = kBFloat16)); tauto.
Qed.

(** With assertions compiled in, an operand of neither layout stops the
    run at the assertion, before the first call. *)
Lemma unlaid_makes_no_call V a b result sa sb sr algo_idx pad w :
  wf a -> wf b -> Int.fits64 pad -> precondition a b result pad ->
  ~ ((column_major a \/ row_major a) /\ (column_major b \/ row_major b)) ->
  made (fp8_mm V false a b result sa sb sr algo_idx pad w) = [].
Proof.
  intros Wa Wb Hp Hpre Hnot.
  destruct (precondition_checks _ _ _ _ Wa Wb Hp Hpre)
    as (n & k & kp & m & Sa & Sb & Hk & C3 & La & Lb & C1 & C2 & C4).
  assert (Za : length (sizes a) = 2%nat) by by rewrite Sa.
  assert (Zb : length (sizes b) = 2%nat) by by rewrite Sb.
  destruct (layout_cases false a "a" w La Za)
    as [(Ac & Ea)|[(Ac & Ar & Ea)|(Ac & Ar & Ea)]];
  destruct (layout_cases false b "b" w Lb Zb)
    as [(Bc & Eb)|[(Bc & Br & Eb)|(Bc & Br & Eb)]];
  try (exfalso; tauto).
  all: change (wp (fp8_mm V false a b result sa sb sr algo_idx pad)
                  (fun _ _ l => l = []) w);
       unfold fp8_mm; rewrite Sa, Sb in *; repeat first [wp_known | wp_det];
       (eapply wp_run; [exact Eb|]); cbn beta iota;
       repeat first [wp_known | wp_det];
       try ((eapply wp_run; [exact Ea|]); cbn beta iota;
            repeat first [wp_known | wp_det]);
       reflexivity.
Qed.

(** X19.  Nothing reaches the library unless the arguments pass the four
    checks: a run that made any call had FP8 operands of rank 2 with
    matching inner extents and a supported result type.  With assertions
    compiled in, nothing reaches it either unless both layouts are
    inferred: each operand then matched one of the two stride patterns. *)
Theorem library_is_reached_only_by_valid_calls
    V NDEBUG a b result sa sb sr algo_idx pad w :
  wf a -> wf b -> Int.fits64 pad ->
  made (fp8_mm V NDEBUG a b result sa sb sr algo_idx pad w) <> [] ->
  precondition a b result pad /\
  (NDEBUG = false ->
   (column_major a \/ row_major a) /\ (column_major b \/ row_major b)).
Proof.
  intros Wa Wb Hp Hmade.
  destruct (precondition_decidable a b result pad) as [Hpre|Hnot].
  - split; [exact Hpre|]. intros ->.
    assert (Za : length (sizes a) = 2%nat /\ length (strides a) = 2%nat).
    { destruct (precondition_checks _ _ _ _ Wa Wb Hp Hpre)
        as (n & k & kp & m & Sa & Sb & _ & _ & La & Lb & _).
      by rewrite Sa. }
    assert (Zb : length (sizes b) = 2%nat /\ length (strides b) = 2%nat).
    { destruct (precondition_checks _ _ _ _ Wa Wb Hp Hpre)
        as (n & k & kp & m & Sa & Sb & _ & _ & La & Lb & _).
      by rewrite Sb. }
    destruct Za as [Za La]. destruct Zb as [Zb Lb].
    destruct (layout_cases false a "a" w La Za)
      as [(Ac & _)|[(_ & Ar & _)|(Ac & Ar & _)]];
    destruct (layout_cases false b "b" w Lb Zb)
      as [(Bc & _)|[(_ & Br & _)|(Bc & Br & _)]];
    try tauto.
    all: exfalso; apply Hmade;
      apply (unlaid_makes_no_call V a b result sa sb sr algo_idx pad
               w Wa Wb Hp Hpre); tauto.
  - exfalso. apply Hmade.
    destruct (rejected_without_call V NDEBUG a b result sa sb sr algo_idx pad
                w Wa Wb Hp Hnot) as (_ & _ & _ & Hl).
    exact Hl.
Qed.

Lemma library_is_reached_only_by_valid_calls_witness :
  precondition Sample.a Sample.b Sample.result 0 /\
  (column_major Sample.a \/ row_major Sample.a) /\
  (column_major Sample.b \/ row_major Sample.b).
Proof.
  destruct (library_is_reached_only_by_valid_calls Sample.vendor false
              Sample.a Sample.b Sample.result Sample.scale_a Sample.scale_b
              None 0 0 Sample.ready) as [Hpre Hlaid].
  - apply wfb_wf. reflexivity.
  - apply wfb_wf. reflexivity.
  - unfold Int.fits64. lia.
  - vm_compute. discriminate.
  - split; [exact Hpre|]. apply Hlaid. reflexivity.
Defined.
